(** * yuango/internal/logging: the daily rotating log writer

    A shallow embedding of [internal/logging/sloglogger.go] and
    [internal/logging/factory.go].  The Go code is sequentialised: every
    method of [DailyRotateWriter] is a function from the writer and the
    state of the operating system to the new writer, the new state and
    the value the method returns.  What the environment decides (the
    clock, and which system calls fail) is an argument of each function,
    so a statement quantified over that argument holds whatever the
    platform does.  [Close] is given a second time step by step, for
    goroutines that call it at once. *)

From Stdlib Require Import ZArith Ascii String DecimalString.
From stdpp Require Import gmap strings list fin_maps sorting.

Local Open Scope string_scope.
Local Open Scope Z_scope.

(** ** Go strings

    A Go string is a sequence of bytes, as is a Rocq [string]. *)

Module strings.

(** [strings.HasPrefix(s, prefix)] *)
Definition HasPrefix (s pre : string) : bool := String.prefix pre s.

(** [strings.HasSuffix(s, suffix)]:
    [len(s) >= len(suffix) && s[len(s)-len(suffix):] == suffix] *)
Definition HasSuffix (s suf : string) : bool :=
  (String.length suf <=? String.length s)%nat &&
  String.eqb
    (substring (String.length s - String.length suf) (String.length suf) s)
    suf.

Definition lower_ascii (c : ascii) : ascii :=
  let n := nat_of_ascii c in
  if ((65 <=? n) && (n <=? 90))%nat then ascii_of_nat (n + 32) else c.

(** [strings.ToLower], on the ASCII letters.  Go also maps the upper
    case letters outside ASCII; none of the words the code compares the
    result with can then be reached from a string that this model
    leaves alone, save through U+0130 and U+212A. *)
Fixpoint ToLower (s : string) : string :=
  match s with
  | EmptyString => EmptyString
  | String c s' => String (lower_ascii c) (ToLower s')
  end.

(** The white space of [unicode.IsSpace] below U+0080. *)
Definition is_space (c : ascii) : bool :=
  let n := nat_of_ascii c in
  ((9 <=? n) && (n <=? 13) || (n =? 32))%nat.

Fixpoint TrimLeft (s : string) : string :=
  match s with
  | String c s' => if is_space c then TrimLeft s' else s
  | EmptyString => EmptyString
  end.

Fixpoint TrimRight (s : string) : string :=
  match s with
  | EmptyString => EmptyString
  | String c s' =>
      match TrimRight s' with
      | EmptyString => if is_space c then EmptyString else String c EmptyString
      | t => String c t
      end
  end.

(** [strings.TrimSpace], on strings of ASCII characters.  Go also trims
    the white space above U+007F. *)
Definition TrimSpace (s : string) : string := TrimRight (TrimLeft s).

(** [strings.Split(s, "/")] *)
Fixpoint SplitSlash (s : string) : list string :=
  match s with
  | EmptyString => [EmptyString]
  | String c s' =>
      if Ascii.eqb c "/" then EmptyString :: SplitSlash s'
      else match SplitSlash s' with
           | x :: xs => String c x :: xs
           | [] => [String c EmptyString]
           end
  end.

(** [strings.Join(elems, "/")] *)
Fixpoint JoinSlash (elems : list string) : string :=
  match elems with
  | [] => EmptyString
  | [x] => x
  | x :: xs => x ++ "/" ++ JoinSlash xs
  end.

End strings.

(** [s[:n]] for [n <= len(s)] *)
Definition slice_to (s : string) (n : nat) : string := substring 0 n s.

(** [s[n:]] for [n <= len(s)] *)
Definition slice_from (s : string) (n : nat) : string :=
  substring n (String.length s - n) s.

Definition nonempty (s : string) : bool :=
  match s with EmptyString => false | _ => true end.

(** ** path/filepath, for a platform whose separator is the slash *)

Module filepath.

Definition IsPathSeparator (c : ascii) : bool := Ascii.eqb c "/".

(** The loop of [filepath.Ext]: [i] runs from [len(path)-1] down while
    [path[i]] is not a separator; here [n = i + 1]. *)
Fixpoint Ext_loop (path : string) (n : nat) : string :=
  match n with
  | O => EmptyString
  | S i =>
      match String.get i path with
      | Some c =>
          if IsPathSeparator c then EmptyString
          else if Ascii.eqb c "." then slice_from path i
          else Ext_loop path i
      | None => EmptyString
      end
  end.

Definition Ext (path : string) : string := Ext_loop path (String.length path).

(** The elements [filepath.Clean] keeps, given those of the path: empty
    elements and [.] go; [..] removes the element before it, stays when
    the path is not rooted and nothing is left to remove, and goes when
    the path is rooted.  [acc] is the output so far, last element
    first. *)
Fixpoint clean_elems (rooted : bool) (acc : list string) (elems : list string)
  : list string :=
  match elems with
  | [] => rev acc
  | e :: rest =>
      if String.eqb e "" || String.eqb e "." then clean_elems rooted acc rest
      else if String.eqb e ".." then
        match acc with
        | a :: acc' =>
            if String.eqb a ".." then clean_elems rooted (e :: acc) rest
            else clean_elems rooted acc' rest
        | [] =>
            if rooted then clean_elems rooted [] rest
            else clean_elems rooted [e] rest
        end
      else clean_elems rooted (e :: acc) rest
  end.

(** [filepath.Clean] *)
Definition Clean (path : string) : string :=
  match path with
  | EmptyString => "."
  | String c _ =>
      let rooted := IsPathSeparator c in
      let out := clean_elems rooted [] (strings.SplitSlash path) in
      if rooted then "/" ++ strings.JoinSlash out
      else match out with
           | [] => "."
           | _ => strings.JoinSlash out
           end
  end.

(** The number of bytes of [path] up to and including its last
    separator: [i + 1] after the loop of [filepath.Dir]. *)
Fixpoint last_sep (path : string) (n : nat) : nat :=
  match n with
  | O => O
  | S i =>
      match String.get i path with
      | Some c => if IsPathSeparator c then n else last_sep path i
      | None => last_sep path i
      end
  end.

(** [filepath.Dir] *)
Definition Dir (path : string) : string :=
  Clean (slice_to path (last_sep path (String.length path))).

(** The first loop of [filepath.Base]: strip the trailing separators. *)
Fixpoint strip_trailing (path : string) (n : nat) : string :=
  match n with
  | O => EmptyString
  | S i =>
      match String.get i path with
      | Some c => if IsPathSeparator c then strip_trailing path i
                  else slice_to path n
      | None => strip_trailing path i
      end
  end.

(** [filepath.Base] *)
Definition Base (path : string) : string :=
  match path with
  | EmptyString => "."
  | _ =>
      let p := strip_trailing path (String.length path) in
      let p := slice_from p (last_sep p (String.length p)) in
      match p with
      | EmptyString => "/"
      | _ => p
      end
  end.

(** [filepath.Join(dir, name)] *)
Definition Join (dir name : string) : string :=
  if nonempty dir then Clean (dir ++ "/" ++ name)
  else if nonempty name then Clean name
  else EmptyString.

End filepath.

(** ** Go's [error] values, and what a call can end in *)

Inductive error : Type :=
| ErrClosed                                (* [os.ErrClosed] *)
| ErrNotExist                              (* [fs.ErrNotExist] *)
| ErrExist                                 (* [fs.ErrExist] *)
| ErrIsDir                                 (* [syscall.EISDIR] *)
| ErrNotDir                                (* [syscall.ENOTDIR] *)
| Errno (code : Z)                         (* any other failure of the platform *)
| ErrNew (msg : string)                    (* [fmt.Errorf(msg)] *)
| ErrWrap (msg : string) (cause : error)   (* [fmt.Errorf(msg + ": %w", cause)] *)
| ErrText (msg : string) (cause : error).  (* [fmt.Errorf(msg + ": %v", cause)] *)

(** A function that returns [error] returns [Nil] or [Err e], or does not
    return because the goroutine panicked. *)
Inductive result : Type :=
| Nil
| Err (e : error)
| Panic (msg : string).

Definition of_error (f : option error) : result :=
  match f with None => Nil | Some e => Err e end.

(** ** The operating system: names, files and open handles

    A name is a directory and an entry of it; the system resolves a path
    to the name [(filepath.Dir path, filepath.Base path)].  A file keeps
    its content while handles on it are open, also after its name is
    removed.  Every failure that the state does not force is decided by
    the caller's [fault] argument: [None] lets the call go through. *)

Module os.

Record inode : Type := Inode { i_data : list Byte.byte; i_mtime : Z }.

Inductive node : Type :=
| NFile (ino : nat)
| NDir (mtime : Z).

Record fd : Type := Fd { fd_ino : nat; fd_open : bool }.

Record OS : Type := mkOS {
  names  : gmap (string * string) node;
  inodes : gmap nat inode;
  fds    : gmap nat fd
}.

(** A Go [os.File] pointer: the index of a handle in [fds]. *)
Definition File : Type := nat.

Definition resolve (path : string) : string * string :=
  (filepath.Dir path, filepath.Base path).

Definition with_names (s : OS) (n : gmap (string * string) node) : OS :=
  mkOS n (inodes s) (fds s).

Definition is_open (s : OS) (f : File) : bool :=
  match fds s !! f with
  | Some d => fd_open d
  | None => false
  end.

(** The content of the file a handle is on. *)
Definition content_ino (s : OS) (i : nat) : list Byte.byte :=
  match inodes s !! i with
  | Some n => i_data n
  | None => []
  end.

Definition content (s : OS) (f : File) : list Byte.byte :=
  match fds s !! f with
  | Some d => content_ino s (fd_ino d)
  | None => []
  end.

Definition dir_exists (s : OS) (dir : string) : bool :=
  String.eqb dir "." || String.eqb dir "/" ||
  match names s !! resolve dir with
  | Some (NDir _) => true
  | _ => false
  end.

(** [os.FileInfo] *)
Record FileInfo : Type := Info { IsDir : bool; ModTime : Z }.

Definition info_of (s : OS) (n : node) : FileInfo :=
  match n with
  | NDir t => Info true t
  | NFile i =>
      Info false (match inodes s !! i with Some n => i_mtime n | None => 0 end)
  end.

(** [os.Stat]: [None] is a non-nil error (and a nil [FileInfo]). *)
Definition Stat (s : OS) (path : string) (fault : bool) : option FileInfo :=
  if fault then None
  else info_of s <$> names s !! resolve path.

(** The flags of [os.OpenFile] beside [O_WRONLY].  Every handle that is
    written to is opened with [O_APPEND]. *)
Record flags : Type := Flags { O_CREATE : bool; O_EXCL : bool; O_APPEND : bool }.

Definition open_handle (s : OS) (i : nat) : OS * File :=
  let f := fresh (dom (fds s)) in
  (mkOS (names s) (inodes s) (<[f := Fd i true]> (fds s)), f).

(** [os.OpenFile(path, O_WRONLY|flags, perm)] at time [now] *)
Definition OpenFile (s : OS) (path : string) (fl : flags) (now : Z)
    (fault : option error) : OS * (File + error) :=
  match fault with
  | Some e => (s, inr e)
  | None =>
      match names s !! resolve path with
      | Some (NDir _) => (s, inr ErrIsDir)
      | Some (NFile i) =>
          if O_CREATE fl && O_EXCL fl then (s, inr ErrExist)
          else let '(s', f) := open_handle s i in (s', inl f)
      | None =>
          if O_CREATE fl && dir_exists s (filepath.Dir path) then
            let i := fresh (dom (inodes s)) in
            let s1 := mkOS (<[resolve path := NFile i]> (names s))
                           (<[i := Inode [] now]> (inodes s)) (fds s) in
            let '(s', f) := open_handle s1 i in (s', inl f)
          else (s, inr ErrNotExist)
      end
  end.

(** [File.Close]: whatever it returns, the handle is closed
    afterwards; on a closed handle it returns [os.ErrClosed]. *)
Definition Close (s : OS) (f : File) (fault : option error) : OS * option error :=
  match fds s !! f with
  | Some d =>
      if fd_open d then
        (mkOS (names s) (inodes s) (<[f := Fd (fd_ino d) false]> (fds s)),
         fault)
      else (s, Some ErrClosed)
  | None => (s, Some ErrClosed)
  end.

(** [File.Write(p)] at time [now].  It returns a non-nil error
    whenever it returns less than [len(p)]; a fault [(k, e)] is a write
    that stops with [e] after at most [k] bytes.  No fault reaches a
    write of no bytes to an open file. *)
Definition Write (s : OS) (f : File) (p : list Byte.byte) (now : Z)
    (fault : option (nat * error)) : OS * (Z * option error) :=
  match fds s !! f with
  | Some d =>
      if fd_open d then
        match p, fault with
        | [], _ => (s, (0, None))
        | _, None =>
            (mkOS (names s)
                  (<[fd_ino d := Inode (content_ino s (fd_ino d) ++ p) now]> (inodes s))
                  (fds s),
             (Z.of_nat (length p), None))
        | _, Some (k, e) =>
            (mkOS (names s)
                  (<[fd_ino d := Inode (content_ino s (fd_ino d) ++ take k p) now]> (inodes s))
                  (fds s),
             (Z.of_nat (length (take k p)), Some e))
        end
      else (s, (0, Some ErrClosed))
  | None => (s, (0, Some ErrClosed))
  end.

(** [os.Remove(path)].  The name goes; the file stays in [inodes], where
    the program reaches it through a handle that is still open and in no
    other way. *)
Definition Remove (s : OS) (path : string) (fault : option error) : OS * option error :=
  match fault with
  | Some e => (s, Some e)
  | None =>
      match names s !! resolve path with
      | Some _ => (with_names s (delete (resolve path) (names s)), None)
      | None => (s, Some ErrNotExist)
      end
  end.

(** [os.DirEntry] *)
Record DirEntry : Type := Entry { Name : string; EntryIsDir : bool }.

Definition entry_of (kn : string * string * node) : DirEntry :=
  Entry (snd (fst kn))
        (match snd kn with NDir _ => true | NFile _ => false end).

Definition in_dir (dir : string) (kn : string * string * node) : bool :=
  String.eqb (fst (fst kn)) dir.

Definition name_le (a b : DirEntry) : Prop :=
  String.leb (Name a) (Name b) = true.

#[export] Instance name_le_dec a b : Decision (name_le a b).
Proof. unfold name_le. apply _. Defined.

(** The entries of [dir], sorted by name as [os.ReadDir] returns them. *)
Definition entries (s : OS) (dir : string) : list DirEntry :=
  merge_sort name_le
    (entry_of <$> filter (fun kn => in_dir dir kn = true) (map_to_list (names s))).

(** [os.ReadDir(dir)] *)
Definition ReadDir (s : OS) (dir : string) (fault : option error)
    : list DirEntry + error :=
  match fault with
  | Some e => inr e
  | None => if dir_exists s dir then inl (entries s dir) else inr ErrNotExist
  end.

(** [os.MkdirAll]: the directories of [dir] that are missing, from the
    outermost one; [None] when an element of [dir] is a file. *)
Fixpoint mkdir_all (fuel : nat) (n : gmap (string * string) node)
    (dir : string) (now : Z) : option (gmap (string * string) node) :=
  if String.eqb dir "." || String.eqb dir "/" then Some n
  else
    match n !! resolve dir with
    | Some (NDir _) => Some n
    | Some (NFile _) => None
    | None =>
        match fuel with
        | O => None
        | S fuel' =>
            match mkdir_all fuel' n (filepath.Dir dir) now with
            | Some n' => Some (<[resolve dir := NDir now]> n')
            | None => None
            end
        end
    end.

(** [os.MkdirAll(dir, perm)] at time [now] *)
Definition MkdirAll (s : OS) (dir : string) (now : Z) (fault : option error)
    : OS * option error :=
  match fault with
  | Some e => (s, Some e)
  | None =>
      match mkdir_all (S (String.length dir)) (names s) dir now with
      | Some n' => (with_names s n', None)
      | None => (s, Some ErrNotDir)
      end
  end.

End os.

(** [sort.Slice(l, less)]: a permutation of [l] in which no element is
    [less] than one before it.  The sort is not stable: where of two
    elements none is [less] than the other, the order it leaves them in
    is not that of [l] but whatever the algorithm makes of it; here
    [rank] decides it. *)
Definition not_less {A : Type} (less : A -> A -> bool) (a b : A) : Prop :=
  less b a = false.

#[export] Instance not_less_dec {A : Type} (less : A -> A -> bool) a b :
  Decision (not_less less a b).
Proof. unfold not_less. apply _. Defined.

Definition ranked {A : Type} (rank : A -> nat) (less : A -> A -> bool)
    (a b : A) : bool :=
  less a b || (negb (less b a) && (rank a <? rank b)%nat).

Definition sort_Slice {A : Type} (rank : A -> nat) (less : A -> A -> bool)
    (l : list A) : list A :=
  merge_sort (not_less (ranked rank less)) l.

(** [fmt.Sprintf("%d", n)] *)
Definition itoa (n : Z) : string := NilZero.string_of_int (Z.to_int n).

(** ** What the environment decides during one rotation check *)

Record Env : Type := mkEnv {
  now_date     : string;                  (* [time.Now().Format("2006-01-02")] *)
  now_nano     : Z;                       (* [time.Now().UnixNano()] *)
  flt_close    : option error;            (* closing the open file *)
  flt_mkdir    : option error;            (* [os.MkdirAll] *)
  flt_probe    : option error;            (* creating the probe file *)
  flt_unprobe  : option error;            (* removing the probe file *)
  flt_stat     : string -> bool;          (* [os.Stat] of a path *)
  flt_check    : option error;            (* opening the existing target *)
  flt_create   : option error;            (* opening the target *)
  flt_readdir  : option error;            (* [os.ReadDir] *)
  flt_remove   : string -> option error;  (* [os.Remove] of an old file *)
  sort_rank    : string -> nat;           (* the order [sort.Slice] leaves
                                             paths of equal time in *)
  late_tick    : bool                     (* the [select] of [autoRotate] takes
                                             a tick that is ready although the
                                             stop channel is closed *)
}.

(** ** DailyRotateWriter

    [mu] has no counterpart: the methods run one at a time.  [stopCh] is
    [true] once the channel is closed. *)

Record DailyRotateWriter : Type := mkWriter {
  basePath : string;
  file     : option os.File;
  lastDate : string;
  stopCh   : bool;
  maxFiles : Z
}.

(** [drw.file != nil] *)
Definition not_nil (f : option os.File) : bool :=
  match f with Some _ => true | None => false end.

Definition with_file (drw : DailyRotateWriter) (f : option os.File)
  : DailyRotateWriter :=
  mkWriter (basePath drw) f (lastDate drw) (stopCh drw) (maxFiles drw).

(** [drw.Write(p)] at time [now] *)
Definition Write (drw : DailyRotateWriter) (s : os.OS) (p : list Byte.byte)
    (now : Z) (fault : option (nat * error)) : os.OS * (Z * option error) :=
  match file drw with
  | None => (s, (0, Some (ErrNew "log file not initialized")))
  | Some f => os.Write s f p now fault
  end.

(** [drw.Close()] *)
Definition Close (drw : DailyRotateWriter) (s : os.OS) (fault : option error)
  : os.OS * DailyRotateWriter * option error :=
  let drw :=
    mkWriter (basePath drw) (file drw) (lastDate drw)
             (if stopCh drw then stopCh drw else true) (maxFiles drw) in
  match file drw with
  | Some f => let '(s', err) := os.Close s f fault in (s', drw, err)
  | None => (s, drw, None)
  end.

(** The name of the file for the day [today]: lines 193 to 202 of
    [rotateIfNeeded]. *)
Definition newFilename (basePath today : string) : string :=
  let ext := filepath.Ext basePath in
  let basename :=
    if nonempty ext
    then slice_to basePath (String.length basePath - String.length ext)
    else basePath in
  let newFilename := basename ++ "-" ++ today ++ ext in
  if nonempty ext then newFilename else newFilename ++ ".log".

(** The test of the loop of [cleanOldLogFiles] on one directory entry. *)
Definition isLogFile (prefix ext : string) (entry : os.DirEntry) : bool :=
  let name := os.Name entry in
  negb (os.EntryIsDir entry) && strings.HasPrefix name (prefix ++ "-") &&
  (strings.HasSuffix name ext ||
   (negb (nonempty ext) && strings.HasSuffix name ".log")).

(** [prefix] and [ext] of [cleanOldLogFiles] *)
Definition logExt (basePath : string) : string :=
  filepath.Ext (filepath.Base basePath).

Definition logPrefix (basePath : string) : string :=
  let baseFileName := filepath.Base basePath in
  let ext := filepath.Ext baseFileName in
  if nonempty ext
  then slice_to baseFileName (String.length baseFileName - String.length ext)
  else baseFileName.

(** [logFiles] after the loop over the directory entries *)
Definition logFiles (basePath : string) (files : list os.DirEntry) : list string :=
  (fun entry => filepath.Join (filepath.Dir basePath) (os.Name entry)) <$>
  filter (fun entry => isLogFile (logPrefix basePath) (logExt basePath) entry = true)
         files.

Definition modTime (env : Env) (s : os.OS) (path : string) : Z :=
  match os.Stat s path (flt_stat env path) with
  | Some info => os.ModTime info
  | None => 0
  end.

Definition stat_ok (env : Env) (s : os.OS) (path : string) : bool :=
  match os.Stat s path (flt_stat env path) with
  | Some _ => true
  | None => false
  end.

(** The call of [sort.Slice] in [cleanOldLogFiles].  [less] reads
    [ModTime] from what [os.Stat] returns without looking at the error:
    it panics on the first path that [os.Stat] fails on, and it is called
    on every element once there are two. *)
Definition sortByModTime (env : Env) (s : os.OS) (logFiles : list string)
  : option (list string) :=
  if (2 <=? length logFiles)%nat && negb (forallb (stat_ok env s) logFiles)
  then None
  else Some (sort_Slice (sort_rank env)
                        (fun a b => modTime env s a <? modTime env s b) logFiles).

(** The loop that removes [logFiles[i]] for [i] from [0] while
    [i < len(logFiles) - maxFiles]; [n] iterations are left. *)
Fixpoint removeOldest (env : Env) (logFiles : list string) (n i : nat)
    (s : os.OS) : os.OS * result :=
  match n with
  | O => (s, Nil)
  | S n' =>
      match logFiles !! i with
      | None => (s, Panic "index out of range")
      | Some path =>
          match os.Remove s path (flt_remove env path) with
          | (s', Some err) =>
              (s', Err (ErrText ("failed to remove old log file " ++ path) err))
          | (s', None) => removeOldest env logFiles n' (S i) s'
          end
      end
  end.

(** [drw.cleanOldLogFiles()] *)
Definition cleanOldLogFiles (env : Env) (drw : DailyRotateWriter) (s : os.OS)
  : os.OS * result :=
  let dir := filepath.Dir (basePath drw) in
  match os.ReadDir s dir (flt_readdir env) with
  | inr err => (s, Err (ErrText "failed to read log directory" err))
  | inl files =>
      let logFiles := logFiles (basePath drw) files in
      if Z.of_nat (length logFiles) <=? maxFiles drw then (s, Nil)
      else
        match sortByModTime env s logFiles with
        | None => (s, Panic "nil pointer dereference")
        | Some logFiles =>
            removeOldest env logFiles
              (Z.to_nat (Z.of_nat (length logFiles) - maxFiles drw)) 0 s
        end
  end.

Definition O_probe : os.flags := os.Flags true true false.
Definition O_check : os.flags := os.Flags false false true.
Definition O_log : os.flags := os.Flags true false true.

(** Lines 193 to 244 of [rotateIfNeeded]: close the open file, prepare
    the directory, open the file of the day and record it. *)
Definition rotateOpen (env : Env) (drw : DailyRotateWriter) (s : os.OS)
  : os.OS * DailyRotateWriter * result :=
  let today := now_date env in
  let newFilename := newFilename (basePath drw) today in
  let '(s, drw, closed) :=
    match file drw with
    | Some f =>
        match os.Close s f (flt_close env) with
        | (s', Some err) => (s', drw, Some err)
        | (s', None) => (s', with_file drw None, None)
        end
    | None => (s, drw, None)
    end in
  match closed with
  | Some err => (s, drw, Err (ErrWrap "failed to close existing file" err))
  | None =>
  let dir := filepath.Dir (basePath drw) in
  match os.MkdirAll s dir (now_nano env) (flt_mkdir env) with
  | (s, Some err) => (s, drw, Err (ErrWrap "failed to create directory" err))
  | (s, None) =>
  let tmpFile := filepath.Join dir (".tmp_write_test_" ++ itoa (now_nano env)) in
  match os.OpenFile s tmpFile O_probe (now_nano env) (flt_probe env) with
  | (s, inr err) => (s, drw, Err (ErrWrap "directory is not writable" err))
  | (s, inl f) =>
  let s := fst (os.Close s f None) in
  let s := fst (os.Remove s tmpFile (flt_unprobe env)) in
  let '(s, checked) :=
    match os.Stat s newFilename (flt_stat env newFilename) with
    | Some _ =>
        match os.OpenFile s newFilename O_check (now_nano env) (flt_check env) with
        | (s', inr err) => (s', Some err)
        | (s', inl f) => (fst (os.Close s' f None), None)
        end
    | None => (s, None)
    end in
  match checked with
  | Some err => (s, drw, Err (ErrWrap "existing log file is not writable" err))
  | None =>
  match os.OpenFile s newFilename O_log (now_nano env) (flt_create env) with
  | (s, inr err) => (s, drw, Err (ErrWrap "failed to create new log file" err))
  | (s, inl f) =>
      (s, mkWriter (basePath drw) (Some f) today (stopCh drw) (maxFiles drw), Nil)
  end end end end end.

(** [drw.rotateIfNeeded()] *)
Definition rotateIfNeeded (env : Env) (drw : DailyRotateWriter) (s : os.OS)
  : os.OS * DailyRotateWriter * result :=
  let today := now_date env in
  if not_nil (file drw) && String.eqb (lastDate drw) today then (s, drw, Nil)
  else
    match rotateOpen env drw s with
    | (s, drw, Nil) =>
        if 0 <? maxFiles drw then
          match cleanOldLogFiles env drw s with
          | (s, Nil) => (s, drw, Nil)
          | (s, Err err) => (s, drw, Err (ErrWrap "failed to clean old log files" err))
          | (s, Panic msg) => (s, drw, Panic msg)
          end
        else (s, drw, Nil)
    | failed => failed
    end.

(** [NewDailyRotateWriter(basePath, maxFiles...)]; the writer it returns
    has its [autoRotate] goroutine running. *)
Definition NewDailyRotateWriter (env : Env) (basePath : string)
    (maxFiles : list Z) (s : os.OS)
  : os.OS * (DailyRotateWriter + result) :=
  let maxFilesValue := match maxFiles with m :: _ => m | [] => 0 end in
  let drw := mkWriter basePath None "" false maxFilesValue in
  match rotateIfNeeded env drw s with
  | (s, drw, Nil) => (s, inl drw)
  | (s, _, failed) => (s, inr failed)
  end.

(** One tick of the ticker in [autoRotate].  While the stop channel is
    open the [select] takes the tick and the check runs.  Once it is
    closed the [select] chooses between the two cases when a tick is
    ready as well: it returns, or it runs one more check.  What the
    check returns is dropped, but a panic of the check is a panic of the
    goroutine: [Some msg].  (Each tick has its own choice here, so a
    history can hold a check after the goroutine has returned; what
    holds of every history holds of those the program can make.) *)
Definition autoRotate (env : Env) (drw : DailyRotateWriter) (s : os.OS)
  : os.OS * DailyRotateWriter * option string :=
  if stopCh drw && negb (late_tick env) then (s, drw, None)
  else
    match rotateIfNeeded env drw s with
    | (s', drw', Panic msg) => (s', drw', Some msg)
    | (s', drw', _) => (s', drw', None)
    end.

(** ** Histories of one writer

    What a caller, or the goroutine of the writer, can do to it, and what
    it gets back. *)

Inductive op : Type :=
| OpWrite (p : list Byte.byte) (now : Z) (fault : option (nat * error))
| OpClose (fault : option error)
| OpRotate (env : Env)
| OpTick (env : Env).

Inductive ret : Type :=
| RetWrite (n : Z) (err : option error)
| RetClose (err : option error)
| RetRotate (r : result)
| RetTick
| RetPanic (msg : string).    (* the goroutine of the writer panicked *)

Definition step (o : op) (st : os.OS * DailyRotateWriter)
  : os.OS * DailyRotateWriter * ret :=
  let '(s, drw) := st in
  match o with
  | OpWrite p now fault =>
      let '(s', (n, err)) := Write drw s p now fault in (s', drw, RetWrite n err)
  | OpClose fault =>
      let '(s', drw', err) := Close drw s fault in (s', drw', RetClose err)
  | OpRotate env =>
      let '(s', drw', r) := rotateIfNeeded env drw s in (s', drw', RetRotate r)
  | OpTick env =>
      let '(s', drw', panicked) := autoRotate env drw s in
      (s', drw', match panicked with Some msg => RetPanic msg | None => RetTick end)
  end.

(** A history, one operation after the other.  A panic of the goroutine
    ends the program: nothing after it runs. *)
Fixpoint run (ops : list op) (st : os.OS * DailyRotateWriter)
  : os.OS * DailyRotateWriter * list ret :=
  match ops with
  | [] => (st, [])
  | o :: ops' =>
      let '(st', r) := step o st in
      match r with
      | RetPanic _ => (st', [r])
      | _ => let '(st'', rs) := run ops' st' in (st'', r :: rs)
      end
  end.

(** A [Write] or a [Close] that returned a nil error. *)
Definition accepted (r : ret) : bool :=
  match r with
  | RetWrite _ None | RetClose None => true
  | _ => false
  end.

(** [Write] one buffer after the other; the counts and errors returned. *)
Fixpoint WriteAll (drw : DailyRotateWriter) (s : os.OS)
    (ps : list (list Byte.byte * Z * option (nat * error)))
  : os.OS * list (Z * option error) :=
  match ps with
  | [] => (s, [])
  | (p, now, fault) :: ps' =>
      let '(s', r) := Write drw s p now fault in
      let '(s'', rs) := WriteAll drw s' ps' in
      (s'', r :: rs)
  end.

(** ** Sample runs

    An environment in which every call goes through, an empty system,
    and the writer of [logs/app.log] on its first and second day. *)

Definition calm (date : string) (nano : Z) : Env :=
  mkEnv date nano None None None None (fun _ => false) None None None
        (fun _ => None)
        (fun _ => 0%nat) false.

(** The directory cannot be written to: creating the probe file fails. *)
Definition unwritable (date : string) (nano : Z) : Env :=
  mkEnv date nano None None (Some (Errno 13)) None (fun _ => false) None None
        None (fun _ => None)
        (fun _ => 0%nat) false.

(** The open file cannot be closed. *)
Definition unclosable (date : string) (nano : Z) : Env :=
  mkEnv date nano (Some (Errno 5)) None None None (fun _ => false) None None
        None (fun _ => None)
        (fun _ => 0%nat) false.

Definition empty_os : os.OS := os.mkOS ∅ ∅ ∅.

Definition no_writer : DailyRotateWriter := mkWriter "" None "" true 0.

(** What [NewDailyRotateWriter] leaves, when it returns a writer. *)
Definition started (env : Env) (basePath : string) (maxFiles : list Z)
    (s : os.OS) : os.OS * DailyRotateWriter :=
  match NewDailyRotateWriter env basePath maxFiles s with
  | (s', inl drw) => (s', drw)
  | (s', inr _) => (s', no_writer)
  end.

Definition day1 : os.OS * DailyRotateWriter :=
  started (calm "2024-01-15" 100) "logs/app.log" [] empty_os.

Definition hello : list Byte.byte := list_byte_of_string "hello".

(** The directory cannot be listed. *)
Definition unlistable (date : string) (nano : Z) : Env :=
  mkEnv date nano None None None None (fun _ => false) None None
        (Some (Errno 13)) (fun _ => None)
        (fun _ => 0%nat) false.

(** The same writer, keeping at most two files. *)
Definition day1_keep2 : os.OS * DailyRotateWriter :=
  started (calm "2024-01-15" 100) "logs/app.log" [2] empty_os.

Definition with_maxFiles (drw : DailyRotateWriter) (m : Z) : DailyRotateWriter :=
  mkWriter (basePath drw) (file drw) (lastDate drw) (stopCh drw) m.

(** The same writer, made with the limit -3. *)
Definition day1_negative : os.OS * DailyRotateWriter :=
  started (calm "2024-01-15" 100) "logs/app.log" [-3] empty_os.

(** [strings.IndexByte(s, c) >= 0] *)
Fixpoint has_byte (c : ascii) (s : string) : bool :=
  match s with
  | EmptyString => false
  | String a s' => Ascii.eqb a c || has_byte c s'
  end.

(** A file at [path], last written at [mtime]. *)
Definition touch (s : os.OS) (path : string) (mtime : Z) : os.OS :=
  match os.OpenFile s path O_log mtime None with
  | (s', inl f) => fst (os.Close s' f None)
  | (s', inr _) => s'
  end.

(** The directory [logs] with two files of earlier days and one that
    carries no date. *)
Definition old_logs : os.OS :=
  touch (touch (touch (fst (os.MkdirAll empty_os "logs" 1 None))
                      "logs/app-backup.log" 5)
               "logs/app-2024-01-01.log" 10)
        "logs/app-2024-01-02.log" 20.

(** The names left after removing the paths [ps] one by one. *)
Definition remove_all (ps : list string) (n : gmap (string * string) os.node)
  : gmap (string * string) os.node :=
  foldl (fun acc p => delete (os.resolve p) acc) n ps.

Definition node_is_dir (nd : os.node) : bool :=
  match nd with os.NDir _ => true | os.NFile _ => false end.

(** The path [filepath.Join(dir, name)] of an entry resolves to that entry
    of [dir]. *)
Definition resolves_to (dir : string) (entry : os.DirEntry) : bool :=
  let key := os.resolve (filepath.Join dir (os.Name entry)) in
  String.eqb (fst key) dir && String.eqb (snd key) (os.Name entry).

(** So it is for every entry of [files] that the pruner keeps in
    [logFiles]. *)
Definition paths_resolve (basePath : string) (files : list os.DirEntry) : bool :=
  forallb (fun entry =>
             negb (isLogFile (logPrefix basePath) (logExt basePath) entry) ||
             resolves_to (filepath.Dir basePath) entry)
          files.

(** [less] of the call of [sort.Slice] in [cleanOldLogFiles] *)
Definition older (env : Env) (s : os.OS) (a b : string) : bool :=
  modTime env s a <? modTime env s b.

(** ** logger.go: Level

    [LevelDebug Level = iota - 4], and the three constants after it
    repeat the expression with [iota] 1, 2 and 3. *)

Definition Level : Type := Z.

Definition LevelDebug : Level := 0 - 4.
Definition LevelInfo : Level := 1 - 4.
Definition LevelWarn : Level := 2 - 4.
Definition LevelError : Level := 3 - 4.

(** The levels of [log/slog] *)
Module slog.

Definition LevelDebug : Z := -4.
Definition LevelInfo : Z := 0.
Definition LevelWarn : Z := 4.
Definition LevelError : Z := 8.

End slog.

(** [lvl.toSlog()] *)
Definition toSlog (lvl : Level) : Z :=
  if lvl =? LevelDebug then slog.LevelDebug
  else if lvl =? LevelWarn then slog.LevelWarn
  else if lvl =? LevelError then slog.LevelError
  else slog.LevelInfo.

(** ** factory.go: parseLevel *)

Definition parseLevel (s : string) : Level * option error :=
  let word := strings.ToLower (strings.TrimSpace s) in
  if String.eqb word "debug" then (LevelDebug, None)
  else if String.eqb word "info" || String.eqb word "" then (LevelInfo, None)
  else if String.eqb word "warn" || String.eqb word "warning" then (LevelWarn, None)
  else if String.eqb word "error" || String.eqb word "err" then (LevelError, None)
  else (LevelInfo, Some (ErrNew ("unknown log level: " ++ s))).

(** ** Values behind an [interface{}], as [reflect] sees them *)

Module Config.

Record t : Type := mk {
  Level    : string;
  Format   : string;
  Output   : string;
  Daily    : bool;
  MaxFiles : Z
}.

End Config.

#[warnings="-register-all"]
Inductive value : Type :=
| NilValue                                   (* the nil interface *)
| BoolValue (b : bool)
| IntValue (n : Z)
| StringValue (s : string)
| MapValue (entries : list (value * value))
| SliceValue (elems : list value)
| InterfaceValue (v : value)                 (* held in a field of interface type *)
| StructValue (fields : list (string * value))
| PtrValue (target : option value)           (* a pointer, but not a [*Config] *)
| ConfigPtr (conf : option Config.t).        (* a [*Config], nil or not *)

Module reflect.

Inductive Kind : Type :=
| Invalid | Bool | Int | String | Map | Slice | Interface | Struct | Ptr.

(** [reflect.ValueOf(c).Kind()] *)
Definition KindOf (v : value) : Kind :=
  match v with
  | NilValue => Invalid
  | BoolValue _ => Bool
  | IntValue _ => Int
  | StringValue _ => String
  | MapValue _ => Map
  | SliceValue _ => Slice
  | InterfaceValue _ => Interface
  | StructValue _ => Struct
  | PtrValue _ | ConfigPtr _ => Ptr
  end.

(** [v.FieldByName(name)] of a struct; [None] is the invalid [Value]. *)
Fixpoint FieldByName (fields : list (string * value)) (name : string)
  : option value :=
  match fields with
  | [] => None
  | (n, v) :: rest => if String.eqb n name then Some v else FieldByName rest name
  end.

End reflect.

(** A [Config] passed by value. *)
Definition struct_of_Config (conf : Config.t) : value :=
  StructValue [("Level", StringValue (Config.Level conf));
               ("Format", StringValue (Config.Format conf));
               ("Output", StringValue (Config.Output conf));
               ("Daily", BoolValue (Config.Daily conf));
               ("MaxFiles", IntValue (Config.MaxFiles conf))].

(** ** SlogLogger *)

(** The [io.Writer] a handler writes to; [Rotating] is the
    [*DailyRotateWriter] made together with the logger. *)
Inductive Writer : Type :=
| Stdout
| Stderr
| Plain (f : os.File)
| Rotating.

Inductive HandlerKind : Type := JSONHandler | TextHandler.

(** [*slog.Logger]: its handler, the writer and [HandlerOptions.Level] of
    the handler, and the arguments of the calls of [With]. *)
Record Logger : Type := mkLogger {
  handler  : HandlerKind;
  writer   : Writer;
  minLevel : Z;
  attrs    : list value
}.

(** [context.Context]; [None] is nil. *)
Definition Context : Type := option nat.

Record SlogLogger : Type := mkSlogLogger {
  base  : Logger;
  ctx   : Context;
  level : Level
}.

(** [NewSlogLogger(level, format, output, daily, maxFiles...)]; next to
    the logger, the writer it made when [daily] asks for one. *)
Definition NewSlogLogger (env : Env) (level : Level) (format output : string)
    (daily : bool) (maxFiles : list Z) (s : os.OS)
  : os.OS * (SlogLogger * option DailyRotateWriter + result) :=
  let maxFilesValue := match maxFiles with m :: _ => m | [] => 0 end in
  let out := strings.ToLower output in
  let '(s, w) :=
    if String.eqb out "" || String.eqb out "stdout" then (s, inl (Stdout, None))
    else if String.eqb out "stderr" then (s, inl (Stderr, None))
    else if daily then
      match NewDailyRotateWriter env output [maxFilesValue] s with
      | (s', inl drw) => (s', inl (Rotating, Some drw))
      | (s', inr failed) => (s', inr failed)
      end
    else
      match os.OpenFile s output O_log (now_nano env) (flt_create env) with
      | (s', inl f) => (s', inl (Plain f, None))
      | (s', inr err) => (s', inr (Err err))
      end in
  match w with
  | inr failed => (s, inr failed)
  | inl (w, drw) =>
      let kind :=
        if String.eqb (strings.ToLower format) "json" then JSONHandler
        else TextHandler in
      (s, inl (mkSlogLogger (mkLogger kind w (toSlog level) []) None level, drw))
  end.

(** [l.With(args...)] *)
Definition With (l : SlogLogger) (args : list value) : SlogLogger :=
  mkSlogLogger
    (mkLogger (handler (base l)) (writer (base l)) (minLevel (base l))
              (attrs (base l) ++ args))
    (ctx l) (level l).

(** [l.WithContext(ctx)] *)
Definition WithContext (l : SlogLogger) (c : Context) : SlogLogger :=
  mkSlogLogger (base l) c (level l).

(** [l.Enabled(ctx, level)]: the handlers of [log/slog] let through the
    levels from [HandlerOptions.Level] upwards. *)
Definition Enabled (l : SlogLogger) (c : Context) (lvl : Level) : bool :=
  minLevel (base l) <=? toSlog lvl.

(** The fields that [NewFromConfig] reads from a struct by reflection. *)
Definition string_field (fields : list (string * value)) (name : string)
  : string :=
  match reflect.FieldByName fields name with
  | Some (StringValue s) => s
  | _ => ""
  end.

Definition bool_field (fields : list (string * value)) (name : string) : bool :=
  match reflect.FieldByName fields name with
  | Some (BoolValue b) => b
  | _ => false
  end.

(** [NewFromConfig(c)] *)
Definition NewFromConfig (env : Env) (c : value) (s : os.OS)
  : os.OS * (SlogLogger * option DailyRotateWriter + result) :=
  match c with
  | ConfigPtr None => (s, inr (Panic "nil pointer dereference"))
  | _ =>
      let '(level, format, output, daily, maxFiles) :=
        match c with
        | ConfigPtr (Some conf) =>
            (Config.Level conf, Config.Format conf, Config.Output conf,
             Config.Daily conf, Config.MaxFiles conf)
        | StructValue fields =>
            (string_field fields "Level", string_field fields "Format",
             string_field fields "Output", bool_field fields "Daily", 0)
        | _ => ("", "", "", false, 0)
        end in
      match parseLevel level with
      | (_, Some err) => (s, inr (Err err))
      | (logLevel, None) =>
          NewSlogLogger env logLevel format output daily [maxFiles] s
      end
  end.

(** [s] holds white space only. *)
Fixpoint all_space (s : string) : bool :=
  match s with
  | EmptyString => true
  | String c s' => strings.is_space c && all_space s'
  end.

(** One of the four constants of [logger.go]. *)
Definition named_level (lvl : Level) : bool :=
  (lvl =? LevelDebug) || (lvl =? LevelInfo) || (lvl =? LevelWarn) ||
  (lvl =? LevelError).

(** Every file that is in [m] is in [m'], with the bytes it had in [m]
    at the front of its content. *)
Definition kept (m m' : gmap nat os.inode) : Prop :=
  forall i n, m !! i = Some n ->
    exists n', m' !! i = Some n' /\ os.i_data n `prefix_of` os.i_data n'.

(** The file at [path] cannot be removed. *)
Definition unremovable (date : string) (nano : Z) (path : string) : Env :=
  mkEnv date nano None None None None (fun _ => false) None None None
        (fun p => if String.eqb p path then Some (Errno 13) else None)
        (fun _ => 0%nat) false.

Definition no_logger : SlogLogger :=
  mkSlogLogger (mkLogger TextHandler Stdout 0 []) None 0.

(** What [NewSlogLogger] or [NewFromConfig] leaves, when it returns a
    logger: the system, the logger, and the rotating writer if one was
    made. *)
Definition made (r : os.OS * (SlogLogger * option DailyRotateWriter + result))
  : os.OS * SlogLogger * option DailyRotateWriter :=
  match r with
  | (s, inl (l, drw)) => (s, l, drw)
  | (s, inr _) => (s, no_logger, None)
  end.

(** ** Close, called by several goroutines

    [Close] has three steps that another goroutine can come between:
    the [select] that looks at the stop channel, [close(drw.stopCh)] in
    its [default] case, and the part under [drw.mu], which the lock makes
    one step.  [pc] is where a goroutine stands in [Close]. *)

Inductive pc : Type :=
| AtSelect                        (* before the [select] *)
| AtDefault                       (* in the [default] case, before [close] *)
| AtLock                          (* before [drw.mu.Lock()] *)
| Returned (err : option error).  (* [Close] has returned [err] *)

Record closing : Type := mkClosing {
  c_os  : os.OS;
  c_drw : DailyRotateWriter;
  c_pcs : list pc
}.

(** The next step of goroutine [i]; [fault] is what closing the file
    fails with, should this step close it.  [inr msg] is a panic. *)
Definition Close_step (i : nat) (fault : option error) (st : closing)
  : closing + string :=
  let drw := c_drw st in
  match c_pcs st !! i with
  | Some AtSelect =>
      inl (mkClosing (c_os st) drw
             (<[i := if stopCh drw then AtLock else AtDefault]> (c_pcs st)))
  | Some AtDefault =>
      if stopCh drw then inr "close of closed channel"
      else inl (mkClosing (c_os st)
                  (mkWriter (basePath drw) (file drw) (lastDate drw) true
                            (maxFiles drw))
                  (<[i := AtLock]> (c_pcs st)))
  | Some AtLock =>
      match file drw with
      | Some f =>
          let '(s', err) := os.Close (c_os st) f fault in
          inl (mkClosing s' drw (<[i := Returned err]> (c_pcs st)))
      | None => inl (mkClosing (c_os st) drw (<[i := Returned None]> (c_pcs st)))
      end
  | Some (Returned _) | None => inl st
  end.

(** The goroutines take their steps in the order of [sched]. *)
Fixpoint Close_run (sched : list (nat * option error)) (st : closing)
  : closing + string :=
  match sched with
  | [] => inl st
  | (i, fault) :: sched' =>
      match Close_step i fault st with
      | inl st' => Close_run sched' st'
      | inr msg => inr msg
      end
  end.

(** The steps goroutine [i] is given in [sched]. *)
Definition steps_of (i : nat) (sched : list (nat * option error)) : nat :=
  length (filter (fun e => fst e = i) sched).

(** A tick that the [select] takes although the stop channel is closed,
    when every call goes through. *)
Definition late (date : string) (nano : Z) : Env :=
  mkEnv date nano None None None None (fun _ => false) None None None
        (fun _ => None) (fun _ => 0%nat) true.

(** Where a goroutine can stand in [Close] once the stop channel is
    closed and the handle too. *)
Definition past_close (p : pc) : Prop :=
  p = AtSelect \/ p = AtLock \/ p = Returned (Some ErrClosed).

(** The steps a goroutine has before it. *)
Definition steps_left (p : option pc) : nat :=
  match p with
  | Some AtSelect | Some AtDefault => 2
  | Some AtLock => 1
  | Some (Returned _) | None => 0
  end.

(** ** The files the pruner counts *)

(** A directory entry that is no directory and whose name starts with
    [prefix] and a dash and ends with [ext]; what stands between is not
    looked at. *)
Definition candidate (prefix ext : string) (entry : os.DirEntry) : bool :=
  negb (os.EntryIsDir entry) &&
  strings.HasPrefix (os.Name entry) (prefix ++ "-") &&
  strings.HasSuffix (os.Name entry) ext.

(** The candidates in the directory of [basePath], as paths. *)
Definition candidates (basePath : string) (s : os.OS) : list string :=
  let dir := filepath.Dir basePath in
  (fun entry => filepath.Join dir (os.Name entry)) <$>
  filter (fun entry => candidate (logPrefix basePath) (logExt basePath) entry = true)
         (os.entries s dir).

Definition is_digit (c : ascii) : bool :=
  let n := nat_of_ascii c in ((48 <=? n) && (n <=? 57))%nat.

(** A date as the layout [2006-01-02] writes it. *)
Definition is_date (d : string) : bool :=
  match list_ascii_of_string d with
  | [y1; y2; y3; y4; d1; m1; m2; d2; a1; a2] =>
      is_digit y1 && is_digit y2 && is_digit y3 && is_digit y4 &&
      Ascii.eqb d1 "-" && is_digit m1 && is_digit m2 &&
      Ascii.eqb d2 "-" && is_digit a1 && is_digit a2
  | _ => false
  end.

(** The rotation naming convention in the words of the specification:
    a file named [prefix], a dash, a date and [ext]. *)
Definition dated (prefix ext : string) (entry : os.DirEntry) : bool :=
  let name := os.Name entry in
  let d := substring (String.length prefix + 1) 10 name in
  negb (os.EntryIsDir entry) && is_date d &&
  String.eqb name (prefix ++ "-" ++ d ++ ext).

(** The directory [logs] with the files of three days and, written
    after them, one that carries no date. *)
Definition mixed_logs : os.OS :=
  touch (touch (touch (touch (fst (os.MkdirAll empty_os "logs" 1 None))
                             "logs/app-2024-01-01.log" 10)
                      "logs/app-2024-01-02.log" 20)
               "logs/app-2024-01-03.log" 30)
        "logs/app-backup.log" 40.

(** Every byte of [s] is below 0x80: [s] is a string of ASCII
    characters, on which [strings.ToLower] and [strings.TrimSpace] of Go
    work byte by byte. *)
Fixpoint is_ascii (s : string) : bool :=
  match s with
  | EmptyString => true
  | String c s' => (nat_of_ascii c <? 128)%nat && is_ascii s'
  end.

(** The place of [a] in [l]; the length of [l] when it is not there. *)
Fixpoint index_of (l : list string) (a : string) : nat :=
  match l with
  | [] => 0%nat
  | x :: r => if String.eqb x a then 0%nat else S (index_of r a)
  end.

(** The environment [env], but with [rank] for the order that
    [sort.Slice] leaves paths of equal time in. *)
Definition with_rank (env : Env) (rank : string -> nat) : Env :=
  mkEnv (now_date env) (now_nano env) (flt_close env) (flt_mkdir env)
        (flt_probe env) (flt_unprobe env) (flt_stat env) (flt_check env)
        (flt_create env) (flt_readdir env) (flt_remove env) rank
        (late_tick env).

(** * Properties *)

(** ** Paths *)

Example Ext_app_log : filepath.Ext "logs/app.log" = ".log".
Proof. reflexivity. Qed.

Example Ext_none : filepath.Ext "logs.d/app" = "".
Proof. reflexivity. Qed.

Example Clean_dots : filepath.Clean "a//b/./c/../../d/" = "a/d".
Proof. reflexivity. Qed.

Example Dir_Base_Join :
  filepath.Dir "/var/log/app.log" = "/var/log" /\
  filepath.Base "/var/log/app.log" = "app.log" /\
  filepath.Join "/var/log" "app-2024-01-15.log" = "/var/log/app-2024-01-15.log" /\
  filepath.Dir "app.log" = "." /\
  filepath.Join "." "app-2024-01-15.log" = "app-2024-01-15.log".
Proof. repeat split; reflexivity. Qed.

(** ** Write *)

Section WriteFacts.

Variables (drw : DailyRotateWriter) (f : os.File).
Hypothesis Hfile : file drw = Some f.

Lemma Write_open_inv s p now fault s' n err :
  os.is_open s f = true ->
  Write drw s p now fault = (s', (n, err)) ->
  os.is_open s' f = true /\ os.fds s' = os.fds s /\ os.names s' = os.names s.
Proof.
  unfold Write, os.Write, os.is_open. rewrite Hfile.
  destruct (os.fds s !! f) as [d|] eqn:Hd; [|discriminate].
  intros Ho. rewrite Ho.
  destruct p as [|b p]; [|destruct fault as [[k e]|]];
    intros [= <- _ _]; cbn; rewrite ?Hd; auto.
Qed.

Lemma Write_nil_error s p now fault s' n :
  os.is_open s f = true ->
  Write drw s p now fault = (s', (n, None)) ->
  n = Z.of_nat (length p) /\ os.content s' f = (os.content s f ++ p)%list.
Proof.
  unfold Write, os.Write, os.is_open, os.content. rewrite Hfile.
  destruct (os.fds s !! f) as [d|] eqn:Hd; [|discriminate].
  intros Ho. rewrite Ho.
  destruct p as [|b p]; [|destruct fault as [[k e]|]]; intros [= <- <-].
  - cbn. rewrite Hd, app_nil_r. done.
  - cbn. rewrite Hd. unfold os.content_ino at 1. cbn.
    rewrite lookup_insert_eq. done.
Qed.

Lemma Write_closed s p now fault :
  os.is_open s f = false ->
  Write drw s p now fault = (s, (0, Some ErrClosed)).
Proof.
  unfold Write, os.Write, os.is_open. rewrite Hfile.
  destruct (os.fds s !! f) as [d|]; [|done]. by intros ->.
Qed.

End WriteFacts.

(** C1.  On a writer whose file is open, every [Write] that returns a nil
    error returns the length of its buffer, and the file holds what it
    held before followed by the buffers in the order of the calls; a
    [Write] of no bytes returns 0 and a nil error and changes nothing. *)
Theorem Write_returns_len_and_appends
    (drw : DailyRotateWriter) (s : os.OS) (f : os.File)
    (ps : list (list Byte.byte * Z * option (nat * error)))
    (s' : os.OS) (rs : list (Z * option error)) :
  file drw = Some f ->
  os.is_open s f = true ->
  WriteAll drw s ps = (s', rs) ->
  Forall (fun r => snd r = None) rs ->
  rs = (fun p => (Z.of_nat (length (fst (fst p))), None)) <$> ps /\
  os.content s' f = (os.content s f ++ concat (fst <$> (fst <$> ps)))%list /\
  os.is_open s' f = true /\
  (forall now fault, Write drw s [] now fault = (s, (0, None))).
Proof.
  intros Hfile Hopen Hrun Hall.
  assert (Hnil : forall now fault, Write drw s [] now fault = (s, (0, None))).
  { intros now fault. unfold Write, os.Write. rewrite Hfile.
    unfold os.is_open in Hopen.
    destruct (os.fds s !! f) as [d|]; [|discriminate]. by rewrite Hopen. }
  cut (rs = (fun p => (Z.of_nat (length (fst (fst p))), None)) <$> ps /\
       os.content s' f = (os.content s f ++ concat (fst <$> (fst <$> ps)))%list /\
       os.is_open s' f = true); [tauto|].
  clear Hnil. revert s s' rs Hopen Hrun Hall.
  induction ps as [|[[p now] fault] ps IH]; intros s s' rs Hopen Hrun Hall.
  - cbn in Hrun. injection Hrun as <- <-. cbn. by rewrite app_nil_r.
  - cbn in Hrun.
    destruct (Write drw s p now fault) as [s1 [n err]] eqn:Hw.
    destruct (WriteAll drw s1 ps) as [s2 rs'] eqn:Hws.
    injection Hrun as <- <-.
    apply Forall_cons in Hall as [Herr Hall]. cbn in Herr. subst err.
    destruct (Write_open_inv drw f Hfile _ _ _ _ _ _ _ Hopen Hw) as (Hopen1 & _ & _).
    destruct (Write_nil_error drw f Hfile _ _ _ _ _ _ Hopen Hw) as [-> Hc1].
    destruct (IH _ _ _ Hopen1 Hws Hall) as (-> & Hc2 & Ho2).
    cbn. rewrite Hc2, Hc1, <- app_assoc. done.
Qed.

Lemma Write_returns_len_and_appends_witness :
  let ps := [(hello, 1, None); ([], 2, Some (0%nat, Errno 28)); (hello, 3, None)] in
  let '(s', rs) := WriteAll (snd day1) (fst day1) ps in
  rs = [(5, None); (0, None); (5, None)] /\
  os.content s' 1%nat = (hello ++ hello)%list.
Proof.
  cbv zeta.
  destruct (WriteAll (snd day1) (fst day1) _) as [s' rs] eqn:Hrun.
  assert (Hall : Forall (fun r => snd r = None) rs).
  { replace rs with (snd (WriteAll (snd day1) (fst day1)
      [(hello, 1, None); ([], 2, Some (0%nat, Errno 28)); (hello, 3, None)]))
      by (rewrite Hrun; reflexivity).
    vm_compute. repeat constructor. }
  destruct (Write_returns_len_and_appends (snd day1) (fst day1) 1%nat _ s' rs
              eq_refl eq_refl Hrun Hall) as (Hrs & Hc & _).
  split; [exact Hrs | exact Hc].
Defined.

(** ** Handles *)

Lemma os_Close_closed s f fault :
  os.is_open s f = false -> os.Close s f fault = (s, Some ErrClosed).
Proof.
  unfold os.is_open, os.Close. destruct (os.fds s !! f); [|done]. by intros ->.
Qed.

Lemma os_Close_open s f fault :
  os.is_open s f = true ->
  exists s', os.Close s f fault = (s', fault) /\ os.is_open s' f = false /\
             os.names s' = os.names s /\ os.inodes s' = os.inodes s.
Proof.
  unfold os.is_open, os.Close. destruct (os.fds s !! f) as [d|]; [|done].
  intros ->. eexists. split; [done|]. cbn. by rewrite lookup_insert_eq.
Qed.

Lemma open_handle_spec s i s' f :
  os.open_handle s i = (s', f) ->
  os.fds s !! f = None /\ os.fds s' = <[f := os.Fd i true]> (os.fds s) /\
  os.names s' = os.names s /\ os.inodes s' = os.inodes s.
Proof.
  unfold os.open_handle. intros [= <- <-]. cbn.
  split; [apply not_elem_of_dom, is_fresh|done].
Qed.

Lemma os_OpenFile_ok s path fl now fault s' f :
  os.OpenFile s path fl now fault = (s', inl f) ->
  os.is_open s' f = true /\ os.fds s !! f = None /\
  exists i, os.fds s' = <[f := os.Fd i true]> (os.fds s) /\
            os.names s' !! os.resolve path = Some (os.NFile i).
Proof.
  unfold os.OpenFile, os.is_open. intros H.
  destruct fault; [discriminate|].
  destruct (os.names s !! os.resolve path) as [[i|t]|] eqn:Hn; [| discriminate |].
  - destruct (os.O_CREATE fl && os.O_EXCL fl); [discriminate|].
    destruct (os.open_handle s i) as [s1 f1] eqn:Ho. injection H as <- <-.
    apply open_handle_spec in Ho as (Hf & -> & Hnames & _).
    rewrite lookup_insert_eq, Hnames. eauto.
  - destruct (os.O_CREATE fl && os.dir_exists s (filepath.Dir path)); [|discriminate].
    destruct (os.open_handle _ _) as [s1 f1] eqn:Ho. injection H as <- <-.
    apply open_handle_spec in Ho as (Hf & -> & Hnames & _). cbn in *.
    rewrite lookup_insert_eq, Hnames, lookup_insert_eq. eauto.
Qed.

(** Lines 193 to 244 either fail or leave an open handle on the file
    named [newFilename], recorded under the date of the check. *)
Lemma rotateOpen_Nil env drw s s' drw' :
  rotateOpen env drw s = (s', drw', Nil) ->
  exists f i,
    drw' = mkWriter (basePath drw) (Some f) (now_date env)
                    (stopCh drw) (maxFiles drw) /\
    os.fds s' !! f = Some (os.Fd i true) /\
    os.names s' !! os.resolve (newFilename (basePath drw) (now_date env))
      = Some (os.NFile i).
Proof.
  unfold rotateOpen. intros H.
  repeat case_match; simplify_eq.
  all: match goal with
       | H : os.OpenFile _ _ O_log _ _ = (_, inl ?f) |- _ =>
           apply os_OpenFile_ok in H as (_ & _ & i & Hfd & Hn);
           exists f, i; split; [done|]; split; [|done];
           by rewrite Hfd, lookup_insert_eq
       end.
Qed.

Lemma is_open_lookup s f i :
  os.fds s !! f = Some (os.Fd i true) -> os.is_open s f = true.
Proof. unfold os.is_open. by intros ->. Qed.

(** ** A writer whose handle is closed *)

Section ClosedHandle.

Variables (f : os.File).

(** The field [file] holds [f], and [f] is closed. *)
Definition holds_closed (s : os.OS) (drw : DailyRotateWriter) : Prop :=
  file drw = Some f /\ os.is_open s f = false.

Lemma rotateIfNeeded_closed env s drw :
  holds_closed s drw ->
  exists r, rotateIfNeeded env drw s = (s, drw, r) /\
            (r = Nil -> lastDate drw = now_date env).
Proof.
  intros [Hf Hc]. unfold rotateIfNeeded. rewrite Hf. cbn.
  destruct (String.eqb (lastDate drw) (now_date env)) eqn:Hd.
  - apply String.eqb_eq in Hd. eauto.
  - unfold rotateOpen. rewrite Hf, (os_Close_closed _ _ _ Hc).
    eexists. split; [done|discriminate].
Qed.

Lemma step_closed o s drw :
  holds_closed s drw ->
  exists drw' r, step o (s, drw) = (s, drw', r) /\ holds_closed s drw' /\
                 accepted r = false.
Proof.
  intros Hh. pose proof Hh as [Hf Hc]. destruct o as [p now fault|fault|env|env]; cbn.
  - rewrite (Write_closed drw f Hf _ _ _ _ Hc). eauto.
  - unfold Close. cbn. rewrite Hf, (os_Close_closed _ _ _ Hc).
    eexists _, _. split; [done|]. split; [|done]. by split.
  - destruct (rotateIfNeeded_closed env s drw Hh) as (r & -> & _). eauto.
  - unfold autoRotate. destruct (stopCh drw && negb (late_tick env)); [eauto|].
    destruct (rotateIfNeeded_closed env s drw Hh) as (r & -> & _).
    destruct r; eauto.
Qed.

(** Once the handle of the writer is closed, nothing reopens it: the
    system stays as it is, and no [Write] or [Close] returns nil. *)
Lemma run_closed ops s drw :
  holds_closed s drw ->
  exists drw' rs, run ops (s, drw) = (s, drw', rs) /\ holds_closed s drw' /\
                  Forall (fun r => accepted r = false) rs.
Proof.
  revert drw. induction ops as [|o ops IH]; intros drw Hh; cbn [run].
  - eauto.
  - destruct (step_closed o s drw Hh) as (drw1 & r & -> & Hh1 & Hr).
    destruct (IH drw1 Hh1) as (drw2 & rs & -> & Hh2 & Hrs).
    destruct r; eexists _, _; (split; [done|]); (split; [done|]);
      by repeat constructor.
Qed.

End ClosedHandle.

(** ** Rotation *)

(** C8.  A rotation check on a writer that holds a file recorded under
    today's date returns nil and changes neither the writer nor the
    system; so after any check that returned nil, a further check on the
    same day changes nothing. *)
Theorem rotateIfNeeded_same_day
    (env : Env) (drw : DailyRotateWriter) (s : os.OS) (f : os.File) :
  file drw = Some f ->
  lastDate drw = now_date env ->
  rotateIfNeeded env drw s = (s, drw, Nil) /\
  (forall env0 drw0 s0 s1 drw1 env1,
     rotateIfNeeded env0 drw0 s0 = (s1, drw1, Nil) ->
     now_date env1 = now_date env0 ->
     rotateIfNeeded env1 drw1 s1 = (s1, drw1, Nil)).
Proof.
  assert (Hfast : forall e d s1, not_nil (file d) = true ->
                    lastDate d = now_date e ->
                    rotateIfNeeded e d s1 = (s1, d, Nil)).
  { intros e d s1 Hf' Hd'. unfold rotateIfNeeded. rewrite Hf', Hd'. cbn.
    by rewrite String.eqb_refl. }
  intros Hf Hd. split; [apply Hfast; [by rewrite Hf|done]|].
  intros env0 drw0 s0 s1 drw1 env1 H0 Hday.
  cut (not_nil (file drw1) = true /\ lastDate drw1 = now_date env0).
  { intros [? ?]. apply Hfast; congruence. }
  unfold rotateIfNeeded in H0.
  destruct (not_nil (file drw0) && String.eqb (lastDate drw0) (now_date env0)) eqn:Hfp.
  - injection H0 as <- <-. apply andb_true_iff in Hfp as [Hnn Hfp].
    by apply String.eqb_eq in Hfp.
  - destruct (rotateOpen env0 drw0 s0) as [[s2 drw2] r2] eqn:Hro.
    destruct r2; try discriminate.
    apply rotateOpen_Nil in Hro as (f1 & i1 & -> & _).
    cbn in H0. repeat case_match; simplify_eq; done.
Qed.

(** C2.  When the check has to rotate and closing the open file fails,
    the check returns that error, wrapped, and the handle the writer is
    left with is closed: whatever is done to the writer afterwards, the
    system stays as it is and no [Write] returns a nil error.  (The field
    [file] keeps the closed handle, so no later check gets past closing
    it.) *)
Theorem rotateIfNeeded_close_failure
    (env : Env) (drw : DailyRotateWriter) (s : os.OS) (f : os.File) (e : error) :
  file drw = Some f ->
  os.is_open s f = true ->
  lastDate drw <> now_date env ->
  flt_close env = Some e ->
  exists s',
    rotateIfNeeded env drw s =
      (s', drw, Err (ErrWrap "failed to close existing file" e)) /\
    os.is_open s' f = false /\
    os.names s' = os.names s /\
    forall ops, exists drw' rs,
      run ops (s', drw) = (s', drw', rs) /\
      Forall (fun r => accepted r = false) rs.
Proof.
  intros Hf Ho Hd He.
  destruct (os_Close_open s f (flt_close env) Ho) as (s' & Hc & Hcl & Hn & _).
  exists s'. split; [|split; [done|split; [done|]]].
  - unfold rotateIfNeeded. rewrite Hf. cbn.
    apply String.eqb_neq in Hd. rewrite Hd.
    unfold rotateOpen. rewrite Hf, Hc, He. done.
  - intros ops.
    destruct (run_closed f ops s' drw) as (drw' & rs & Hr & _ & Hrs); [by split|].
    eauto.
Qed.

Lemma rotateIfNeeded_close_failure_witness :
  exists s',
    rotateIfNeeded (unclosable "2024-01-16" 200) (snd day1) (fst day1) =
      (s', snd day1, Err (ErrWrap "failed to close existing file" (Errno 5))) /\
    os.is_open s' 1%nat = false /\
    os.names s' = os.names (fst day1) /\
    forall ops, exists drw' rs,
      run ops (s', snd day1) = (s', drw', rs) /\
      Forall (fun r => accepted r = false) rs.
Proof.
  apply (rotateIfNeeded_close_failure (unclosable "2024-01-16" 200)
           (snd day1) (fst day1) 1%nat (Errno 5));
    [reflexivity | reflexivity | discriminate | reflexivity].
Defined.

(** ** Close *)

Lemma rotateIfNeeded_closed_result f env s drw :
  holds_closed f s drw ->
  exists r, rotateIfNeeded env drw s = (s, drw, r) /\
            forall msg, r <> Panic msg.
Proof.
  intros [Hf Hc]. unfold rotateIfNeeded. rewrite Hf. cbn.
  destruct (String.eqb (lastDate drw) (now_date env)).
  - eexists. split; [done|done].
  - unfold rotateOpen. rewrite Hf, (os_Close_closed _ _ _ Hc).
    eexists. split; [done|done].
Qed.

Lemma step_closed_no_panic f o s drw :
  holds_closed f s drw ->
  exists drw' r, step o (s, drw) = (s, drw', r) /\ holds_closed f s drw' /\
                 accepted r = false /\ forall msg, r <> RetPanic msg.
Proof.
  intros Hh. pose proof Hh as [Hf Hc]. destruct o as [p now fault|fault|env|env]; cbn.
  - rewrite (Write_closed drw f Hf _ _ _ _ Hc).
    eexists _, _. split; [done|]. split; [done|]. split; [done|]. done.
  - unfold Close. cbn. rewrite Hf, (os_Close_closed _ _ _ Hc).
    eexists _, _. split; [done|]. split; [by split|]. split; [done|]. done.
  - destruct (rotateIfNeeded_closed_result f env s drw Hh) as (r & -> & _).
    eexists _, _. split; [done|]. split; [done|]. split; [done|]. done.
  - unfold autoRotate.
    destruct (stopCh drw && negb (late_tick env)).
    { eexists _, _. split; [done|]. split; [done|]. split; [done|]. done. }
    destruct (rotateIfNeeded_closed_result f env s drw Hh) as (r & -> & Hr).
    destruct r; try (by destruct (Hr msg));
      (eexists _, _; split; [done|]; split; [done|]; split; [done|]; done).
Qed.

Lemma run_closed_no_panic f ops s drw :
  holds_closed f s drw ->
  exists drw' rs, run ops (s, drw) = (s, drw', rs) /\ holds_closed f s drw' /\
                  length rs = length ops /\
                  Forall (fun r => accepted r = false) rs /\
                  Forall (fun r => forall msg, r <> RetPanic msg) rs.
Proof.
  revert drw. induction ops as [|o ops IH]; intros drw Hh; cbn [run].
  - eexists _, _. split; [done|]. split; [done|]. split; [done|].
    split; constructor.
  - destruct (step_closed_no_panic f o s drw Hh) as (drw1 & r & -> & Hh1 & Hr & Hp).
    destruct (IH drw1 Hh1) as (drw2 & rs & -> & Hh2 & Hlen & Hrs & Hps).
    destruct r; try (by destruct (Hp msg));
      eexists _, _; (split; [done|]); (split; [done|]);
      (split; [cbn; by rewrite Hlen|]); split; by constructor.
Qed.

(** A goroutine that runs [Close] with no other in between does what
    [Close] does. *)
Lemma Close_run_alone i fault st :
  c_pcs st !! i = Some AtSelect ->
  forall s' drw' err, Close (c_drw st) (c_os st) fault = (s', drw', err) ->
  Close_run [(i, fault); (i, fault); (i, fault)] st =
    inl (mkClosing s' drw' (<[i := Returned err]> (c_pcs st))).
Proof.
  intros Hi s' drw' err. destruct st as [s [bp fl ld st mf] pcs]. cbn in *.
  assert (Hlt : (i < length pcs)%nat) by (by eapply lookup_lt_Some).
  assert (Hins : forall (l : list pc) (x : pc),
            length l = length pcs -> <[i:=x]> l !! i = Some x).
  { intros l x Hl. apply list_lookup_insert_eq. by rewrite Hl. }
  unfold Close, Close_step. cbn. rewrite Hi.
  destruct st, fl as [f|]; cbn;
    try (destruct (os.Close s f fault) as [s2 e2] eqn:Hos); cbn;
    repeat (rewrite Hins by (rewrite ?length_insert; done); cbn;
            rewrite ?Hos; cbn);
    rewrite ?list_insert_insert_eq; by intros [= <- <- <-].
Qed.

Section ClosedWriter.

Variables (f : os.File) (s : os.OS) (drw : DailyRotateWriter).
Hypothesis Hclosed : holds_closed f s drw.
Hypothesis Hstop : stopCh drw = true.

Lemma Close_step_closed i fault pcs :
  Forall past_close pcs ->
  exists pcs', Close_step i fault (mkClosing s drw pcs) = inl (mkClosing s drw pcs') /\
    Forall past_close pcs' /\ length pcs' = length pcs /\
    (forall j, j <> i -> pcs' !! j = pcs !! j) /\
    steps_left (pcs' !! i) = pred (steps_left (pcs !! i)).
Proof.
  intros Hall. destruct Hclosed as [Hf Hc]. unfold Close_step. cbn.
  destruct (pcs !! i) as [p|] eqn:Hi.
  2:{ exists pcs. rewrite Hi. by repeat split. }
  assert (Hlt : (i < length pcs)%nat) by (by eapply lookup_lt_Some).
  assert (Hp : past_close p).
  { rewrite Forall_forall in Hall. eapply Hall, list_elem_of_lookup_2, Hi. }
  destruct Hp as [-> | [-> | ->]].
  - rewrite Hstop. eexists. split; [done|].
    split; [apply Forall_insert; [done|right; by left]|].
    split; [by rewrite length_insert|].
    split; [intros j Hj; by rewrite list_lookup_insert_ne|].
    by rewrite list_lookup_insert_eq.
  - rewrite Hf, (os_Close_closed _ _ _ Hc). eexists. split; [done|].
    split; [apply Forall_insert; [done|right; by right]|].
    split; [by rewrite length_insert|].
    split; [intros j Hj; by rewrite list_lookup_insert_ne|].
    by rewrite list_lookup_insert_eq.
  - exists pcs. rewrite Hi. by repeat split.
Qed.

Lemma Close_run_closed sched pcs :
  Forall past_close pcs ->
  exists pcs', Close_run sched (mkClosing s drw pcs) = inl (mkClosing s drw pcs') /\
    Forall past_close pcs' /\ length pcs' = length pcs /\
    forall i, steps_left (pcs' !! i) = (steps_left (pcs !! i) - steps_of i sched)%nat.
Proof.
  revert pcs. induction sched as [|[i fault] sched IH]; intros pcs Hall.
  - exists pcs. cbn. repeat split; try done. intros i. unfold steps_of. cbn. lia.
  - cbn [Close_run].
    destruct (Close_step_closed i fault pcs Hall)
      as (pcs1 & -> & Hall1 & Hlen1 & Hother & Hi).
    destruct (IH pcs1 Hall1) as (pcs2 & -> & Hall2 & Hlen2 & Hleft).
    exists pcs2. split; [done|]. split; [done|]. split; [congruence|].
    intros j. rewrite Hleft. unfold steps_of. rewrite filter_cons. cbn.
    destruct (decide (i = j)) as [<-|Hne].
    + rewrite Hi. cbn. lia.
    + rewrite Hother by done. done.
Qed.

End ClosedWriter.

(** C7, for a writer that holds a file.  After [Close] the handle is
    closed and the stop channel too.  Whatever is done to the writer
    afterwards, one call after the other, ticks that the goroutine still
    takes among them, the system stays as it is, the writer keeps the
    closed handle, every [Write] and every [Close] returns an error, and
    nothing panics.  And however many goroutines call [Close] afterwards
    and in whatever order they take their steps, none panics, writer and
    system stay as they are, every call that has returned has returned
    [os.ErrClosed], and a call that was given two steps has returned. *)
Theorem Close_is_final
    (drw : DailyRotateWriter) (s : os.OS) (f : os.File) (fault : option error)
    (s1 : os.OS) (drw1 : DailyRotateWriter) (err : option error) :
  file drw = Some f ->
  Close drw s fault = (s1, drw1, err) ->
  stopCh drw1 = true /\
  os.is_open s1 f = false /\
  (forall ops, exists drw2 rs,
    run ops (s1, drw1) = (s1, drw2, rs) /\
    file drw2 = Some f /\
    Forall (fun r => accepted r = false) rs /\
    length rs = length ops /\
    Forall (fun r => forall msg, r <> RetPanic msg) rs) /\
  (forall n sched, exists pcs,
    Close_run sched (mkClosing s1 drw1 (replicate n AtSelect)) =
      inl (mkClosing s1 drw1 pcs) /\
    length pcs = n /\
    (forall i e, pcs !! i = Some (Returned e) -> e = Some ErrClosed) /\
    (forall i, (i < n)%nat -> (2 <= steps_of i sched)%nat ->
               pcs !! i = Some (Returned (Some ErrClosed)))).
Proof.
  intros Hf Hc. unfold Close in Hc. cbn in Hc. rewrite Hf in Hc.
  destruct (os.Close s f fault) as [s' e'] eqn:Hos. injection Hc as <- <- <-.
  assert (Hcl : os.is_open s' f = false).
  { destruct (os.is_open s f) eqn:Ho.
    - destruct (os_Close_open s f fault Ho) as (s2 & Hc2 & Hcl & _). congruence.
    - rewrite (os_Close_closed _ _ _ Ho) in Hos. congruence. }
  set (drw1 := mkWriter (basePath drw) (Some f) (lastDate drw)
                 (if stopCh drw then stopCh drw else true) (maxFiles drw)).
  assert (Hstop : stopCh drw1 = true) by (cbn; by destruct (stopCh drw)).
  assert (Hh : holds_closed f s' drw1) by (by split).
  split; [done|]. split; [done|]. split.
  - intros ops.
    destruct (run_closed_no_panic f ops s' drw1 Hh)
      as (drw2 & rs & Hr & [Hf2 _] & Hlen & Hrs & Hps).
    exists drw2, rs. split; [done|]. split; [done|]. split; [done|]. by split.
  - intros n sched.
    destruct (Close_run_closed f s' drw1 Hh Hstop sched (replicate n AtSelect))
      as (pcs & Hrun & Hall & Hlen & Hleft).
    { apply Forall_replicate. by left. }
    rewrite length_replicate in Hlen.
    exists pcs. split; [done|]. split; [done|]. split.
    + intros i e Hi. rewrite Forall_forall in Hall.
      apply list_elem_of_lookup_2, Hall in Hi as [Hi | [Hi | Hi]]; congruence.
    + intros i Hi Hsteps. specialize (Hleft i).
      rewrite (lookup_replicate_2 n AtSelect i Hi) in Hleft. cbn in Hleft.
      destruct (pcs !! i) as [p|] eqn:Hp.
      2:{ apply lookup_ge_None in Hp. lia. }
      rewrite Forall_forall in Hall.
      pose proof (Hall p (list_elem_of_lookup_2 _ _ _ Hp)) as [-> | [-> | ->]];
        cbn in Hleft; first [lia | done].
Qed.

Lemma Close_is_final_witness :
  let '(s1, drw1, _) := Close (snd day1) (fst day1) None in
  stopCh drw1 = true /\
  os.is_open s1 1%nat = false /\
  (forall ops, exists drw2 rs,
    run ops (s1, drw1) = (s1, drw2, rs) /\
    file drw2 = Some 1%nat /\
    Forall (fun r => accepted r = false) rs /\
    length rs = length ops /\
    Forall (fun r => forall msg, r <> RetPanic msg) rs) /\
  (forall n sched, exists pcs,
    Close_run sched (mkClosing s1 drw1 (replicate n AtSelect)) =
      inl (mkClosing s1 drw1 pcs) /\
    length pcs = n /\
    (forall i e, pcs !! i = Some (Returned e) -> e = Some ErrClosed) /\
    (forall i, (i < n)%nat -> (2 <= steps_of i sched)%nat ->
               pcs !! i = Some (Returned (Some ErrClosed)))).
Proof.
  destruct (Close (snd day1) (fst day1) None) as [[s1 drw1] err] eqn:Hc.
  apply (Close_is_final (snd day1) (fst day1) 1%nat None s1 drw1 err);
    [reflexivity | exact Hc].
Defined.

(** C7 as stated fails on a writer that holds no file, as after a check
    that closed the file of the day before and then found the directory
    not writable: the second [Close] returns nil like the first, and a
    tick that the goroutine still takes opens a file that [Write] then
    writes to.  And it fails for the first calls of [Close] when they
    overlap: two goroutines that both pass the [select] before either
    closes the stop channel both close it, and the second [close]
    panics. *)
Lemma Close_without_file_is_not_final :
  snd (run [OpTick (unwritable "2024-01-16" 200);
            OpClose None;
            OpClose None;
            OpTick (late "2024-01-16" 300);
            OpWrite hello 400 None] day1) =
  [RetTick; RetClose None; RetClose None; RetTick; RetWrite 5 None] /\
  Close_run [(0%nat, None); (1%nat, None); (0%nat, None); (1%nat, None)]
            (mkClosing (fst day1) (snd day1) [AtSelect; AtSelect]) =
    inr "close of closed channel".
Proof. vm_compute. split; reflexivity. Qed.

Lemma rotateIfNeeded_same_day_witness :
  rotateIfNeeded (calm "2024-01-15" 500) (snd day1) (fst day1) =
    (fst day1, snd day1, Nil).
Proof.
  apply (rotateIfNeeded_same_day (calm "2024-01-15" 500) (snd day1) (fst day1)
           1%nat); reflexivity.
Defined.

(** ** Pruning leaves files and handles alone *)

Lemma os_Remove_frame s path fault s' err :
  os.Remove s path fault = (s', err) ->
  os.fds s' = os.fds s /\ os.inodes s' = os.inodes s.
Proof.
  unfold os.Remove. intros H. repeat case_match; simplify_eq; done.
Qed.

Lemma removeOldest_frame env paths n i s s' r :
  removeOldest env paths n i s = (s', r) ->
  os.fds s' = os.fds s /\ os.inodes s' = os.inodes s.
Proof.
  revert i s. induction n as [|n IH]; intros i s; cbn.
  - by intros [= <- _].
  - destruct (paths !! i) as [path|]; [|by intros [= <- _]].
    destruct (os.Remove s path (flt_remove env path)) as [s1 [err|]] eqn:Hr;
      apply os_Remove_frame in Hr as [Hfd Hin].
    + by intros [= <- _].
    + intros H. apply IH in H as [-> ->]. done.
Qed.

Lemma cleanOldLogFiles_frame env drw s s' r :
  cleanOldLogFiles env drw s = (s', r) ->
  os.fds s' = os.fds s /\ os.inodes s' = os.inodes s.
Proof.
  unfold cleanOldLogFiles. intros H.
  repeat case_match; simplify_eq; try done.
  by eapply removeOldest_frame.
Qed.

(** What lines 193 to 244 return when they fail. *)
Definition open_failure (e : error) : Prop :=
  exists cause,
    e = ErrWrap "failed to close existing file" cause \/
    e = ErrWrap "failed to create directory" cause \/
    e = ErrWrap "directory is not writable" cause \/
    e = ErrWrap "existing log file is not writable" cause \/
    e = ErrWrap "failed to create new log file" cause.

Lemma rotateOpen_result env drw s s' drw' r :
  rotateOpen env drw s = (s', drw', r) ->
  match r with
  | Nil => True
  | Err e => open_failure e
  | Panic _ => False
  end.
Proof.
  unfold rotateOpen, open_failure. intros H.
  repeat case_match; simplify_eq; eauto 10.
Qed.

(** C3.  When the check returns the error of the pruner, the writer holds
    a handle opened by this check on the file named for today, under
    today's date; the handle is open, and a [Write] that no fault reaches
    returns the length of its buffer and a nil error and appends the
    buffer to that file. *)
Theorem rotateIfNeeded_prune_failure
    (env : Env) (drw : DailyRotateWriter) (s s' : os.OS)
    (drw' : DailyRotateWriter) (e : error) :
  rotateIfNeeded env drw s =
    (s', drw', Err (ErrWrap "failed to clean old log files" e)) ->
  exists s1 f i,
    rotateOpen env drw s = (s1, drw', Nil) /\
    cleanOldLogFiles env drw' s1 = (s', Err e) /\
    file drw' = Some f /\
    lastDate drw' = now_date env /\
    os.names s1 !! os.resolve (newFilename (basePath drw) (now_date env))
      = Some (os.NFile i) /\
    os.fds s' !! f = Some (os.Fd i true) /\
    forall p now, exists s'',
      Write drw' s' p now None = (s'', (Z.of_nat (length p), None)) /\
      os.content s'' f = (os.content s' f ++ p)%list.
Proof.
  unfold rotateIfNeeded. intros H.
  destruct (not_nil (file drw) && String.eqb (lastDate drw) (now_date env));
    [discriminate|].
  destruct (rotateOpen env drw s) as [[s1 drw1] r1] eqn:Hro.
  destruct r1 as [|e1|msg].
  - pose proof Hro as Hro'.
    apply rotateOpen_Nil in Hro' as (f & i & -> & Hfd & Hn). cbn in H.
    destruct (0 <? maxFiles drw); [|discriminate].
    match type of H with context [cleanOldLogFiles ?a ?b ?c] =>
      destruct (cleanOldLogFiles a b c) as [s2 r2] eqn:Hcl end.
    destruct r2; simplify_eq.
    pose proof (cleanOldLogFiles_frame _ _ _ _ _ Hcl) as [Hfds Hino].
    exists s1, f, i. repeat split; try done; [congruence|].
    intros p now.
    assert (Hfd' : os.fds s' !! f = Some (os.Fd i true)) by congruence.
    unfold Write, os.Write, os.content. cbn. rewrite Hfd'. cbn.
    destruct p as [|b p].
    + eexists. split; [done|]. by rewrite Hfd', app_nil_r.
    + eexists. split; [done|]. cbn. rewrite Hfd'. unfold os.content_ino at 1. cbn.
      by rewrite lookup_insert_eq.
  - apply rotateOpen_result in Hro as (cause & Hc). simplify_eq.
    destruct Hc as [Hc|[Hc|[Hc|[Hc|Hc]]]]; discriminate.
  - by apply rotateOpen_result in Hro.
Qed.

Lemma rotateIfNeeded_prune_failure_witness :
  let r := rotateIfNeeded (unlistable "2024-01-16" 200)
                          (snd day1_keep2) (fst day1_keep2) in
  exists f,
    file (snd (fst r)) = Some f /\
    lastDate (snd (fst r)) = "2024-01-16" /\
    forall p now, exists s'',
      Write (snd (fst r)) (fst (fst r)) p now None
        = (s'', (Z.of_nat (length p), None)) /\
      os.content s'' f = (os.content (fst (fst r)) f ++ p)%list.
Proof.
  intros r.
  assert (Heq : rotateIfNeeded (unlistable "2024-01-16" 200)
                  (snd day1_keep2) (fst day1_keep2)
                = (fst (fst r), snd (fst r),
                   Err (ErrWrap "failed to clean old log files"
                          (ErrText "failed to read log directory" (Errno 13)))))
    by (vm_compute; reflexivity).
  destruct (rotateIfNeeded_prune_failure _ _ _ _ _ _ Heq)
    as (s1 & f & i & _ & _ & Hf & Hd & _ & _ & Hw).
  exists f. split; [exact Hf|]. split; [exact Hd | exact Hw].
Defined.

(** ** A writer without a retention limit removes nothing *)

Lemma mkdir_all_subseteq fuel n dir now n' :
  os.mkdir_all fuel n dir now = Some n' -> n ⊆ n'.
Proof.
  revert n dir n'. induction fuel as [|fuel IH]; intros n dir n'; cbn;
    intros H; repeat case_match; simplify_eq; try done.
  apply insert_subseteq_r; [done|]. by eapply IH.
Qed.

Lemma os_MkdirAll_names s dir now fault s' err :
  os.MkdirAll s dir now fault = (s', err) ->
  os.names s ⊆ os.names s' /\ os.inodes s' = os.inodes s /\ os.fds s' = os.fds s.
Proof.
  unfold os.MkdirAll. intros H. repeat case_match; simplify_eq; try done.
  cbn. split; [|done]. by eapply mkdir_all_subseteq.
Qed.

Lemma os_Close_names s f fault s' err :
  os.Close s f fault = (s', err) ->
  os.names s' = os.names s /\ os.inodes s' = os.inodes s.
Proof.
  unfold os.Close. intros H. repeat case_match; simplify_eq; done.
Qed.

Lemma os_OpenFile_names s path fl now fault s' r :
  os.OpenFile s path fl now fault = (s', r) ->
  os.names s ⊆ os.names s' /\ os.inodes s ⊆ os.inodes s' /\
  (os.O_CREATE fl = false -> os.names s' = os.names s).
Proof.
  unfold os.OpenFile, os.open_handle. intros H.
  repeat case_match; simplify_eq; cbn; try done.
  - match goal with H : _ && _ = true |- _ => apply andb_true_iff in H as [Hc _] end.
    split; [by apply insert_subseteq|]. split; [|congruence].
    apply insert_subseteq, not_elem_of_dom, is_fresh.
Qed.

(** Creating the probe file and removing it again leaves every name that
    was there. *)
Lemma probe_names s tmp now fault s1 f unprobe :
  os.OpenFile s tmp O_probe now fault = (s1, inl f) ->
  os.names s ⊆ os.names (fst (os.Remove (fst (os.Close s1 f None)) tmp unprobe)) /\
  os.inodes s ⊆ os.inodes (fst (os.Remove (fst (os.Close s1 f None)) tmp unprobe)).
Proof.
  intros Ho.
  destruct (os.Close s1 f None) as [s2 e2] eqn:Hc.
  apply os_Close_names in Hc as [Hn2 Hi2].
  pose proof (os_OpenFile_names _ _ _ _ _ _ _ Ho) as (Hn1 & Hi1 & _).
  cbn [fst]. unfold os.Remove.
  destruct unprobe; cbn; [by rewrite Hn2, Hi2|].
  destruct (os.names s2 !! os.resolve tmp) eqn:Hl; cbn; [|by rewrite Hn2, Hi2].
  rewrite Hi2. split; [|done]. rewrite Hn2.
  unfold os.OpenFile, os.open_handle in Ho. cbn in Ho.
  repeat case_match; simplify_eq; cbn.
  by rewrite delete_insert_id.
Qed.

Ltac frame_eqs :=
  repeat match goal with
  | H : os.inodes _ = os.inodes _ |- _ => rewrite H in *; clear H
  | H : os.names _ = os.names _ |- _ => rewrite H in *; clear H
  end.

Ltac subseteq_chain :=
  solve [ reflexivity | eassumption | etrans; [eassumption|]; subseteq_chain ].

Ltac frame_chain := simplify_eq; frame_eqs; split; subseteq_chain.

Lemma rotateOpen_names env drw s s' drw' r :
  rotateOpen env drw s = (s', drw', r) ->
  os.names s ⊆ os.names s' /\ os.inodes s ⊆ os.inodes s'.
Proof.
  unfold rotateOpen. intros H.
  destruct (match file drw with
            | Some f =>
                match os.Close s f (flt_close env) with
                | (s', Some err) => (s', drw, Some err)
                | (s', None) => (s', with_file drw None, None)
                end
            | None => (s, drw, None)
            end) as [[s0 drw0] closed] eqn:Hclose.
  assert (H0 : os.names s0 = os.names s /\ os.inodes s0 = os.inodes s).
  { repeat case_match; simplify_eq; try done; by eapply os_Close_names. }
  destruct H0 as [Hn0 Hi0]. rewrite <- Hn0, <- Hi0. clear Hclose Hn0 Hi0.
  destruct closed; [frame_chain|].
  destruct (os.MkdirAll s0 _ _ _) as [s1 [e1|]] eqn:Hmk;
    apply os_MkdirAll_names in Hmk as (Hn1 & Hi1 & _); [frame_chain|].
  destruct (os.OpenFile s1 _ O_probe _ _) as [s2 [f2|e2]] eqn:Hprobe.
  2:{ apply os_OpenFile_names in Hprobe as (? & ? & ?). frame_chain. }
  apply probe_names with (unprobe := flt_unprobe env) in Hprobe as [Hn3 Hi3].
  set (s3 := fst (os.Remove (fst (os.Close s2 f2 None)) _ (flt_unprobe env))) in *.
  clearbody s3.
  destruct (os.Stat s3 _ _) as [info|].
  - destruct (os.OpenFile s3 _ O_check _ _) as [s4 [f4|e4]] eqn:Hchk;
      apply os_OpenFile_names in Hchk as (Hn4 & Hi4 & _); [|frame_chain].
    destruct (os.Close s4 f4 None) as [s5 e5] eqn:Hc5.
    apply os_Close_names in Hc5 as [Hn5 Hi5]. cbn [fst] in H.
    destruct (os.OpenFile s5 _ O_log _ _) as [s6 [f6|e6]] eqn:Hlog;
      apply os_OpenFile_names in Hlog as (Hn6 & Hi6 & _); frame_chain.
  - destruct (os.OpenFile s3 _ O_log _ _) as [s6 [f6|e6]] eqn:Hlog;
      apply os_OpenFile_names in Hlog as (Hn6 & Hi6 & _); frame_chain.
Qed.

Lemma rotateIfNeeded_names env drw s s' drw' r :
  maxFiles drw <= 0 ->
  rotateIfNeeded env drw s = (s', drw', r) ->
  os.names s ⊆ os.names s' /\ os.inodes s ⊆ os.inodes s' /\
  maxFiles drw' = maxFiles drw.
Proof.
  intros Hm. unfold rotateIfNeeded.
  destruct (not_nil (file drw) && String.eqb (lastDate drw) (now_date env)).
  { intros [= <- <- _]. done. }
  destruct (rotateOpen env drw s) as [[s1 drw1] r1] eqn:Hro.
  pose proof (rotateOpen_names _ _ _ _ _ _ Hro) as [Hn Hi].
  assert (Hmax : maxFiles drw1 = maxFiles drw).
  { unfold rotateOpen in Hro. repeat case_match; simplify_eq; done. }
  destruct r1.
  - assert (Hlt : (0 <? maxFiles drw1) = false) by (apply Z.ltb_ge; lia).
    rewrite Hlt. intros [= <- <- _]. done.
  - intros [= <- <- _]. done.
  - intros [= <- <- _]. done.
Qed.

Lemma step_names o s drw s' drw' r :
  maxFiles drw <= 0 ->
  step o (s, drw) = (s', drw', r) ->
  os.names s ⊆ os.names s' /\ maxFiles drw' <= 0.
Proof.
  intros Hm. destruct o as [p now fault|fault|env|env]; cbn.
  - destruct (Write drw s p now fault) as [s1 [n err]] eqn:Hw.
    intros [= <- <- _]. split; [|done].
    unfold Write, os.Write in Hw. repeat case_match; simplify_eq; done.
  - unfold Close. cbn.
    destruct (file drw) as [f|]; [|by intros [= <- <- _]].
    destruct (os.Close s f fault) as [s1 e1] eqn:Hc.
    apply os_Close_names in Hc as [Hn _]. intros [= <- <- _]. by rewrite Hn.
  - destruct (rotateIfNeeded env drw s) as [[s1 drw1] r1] eqn:Hr.
    apply rotateIfNeeded_names in Hr as (Hn & _ & Hmax); [|done].
    intros [= <- <- _]. split; [done|lia].
  - unfold autoRotate.
    destruct (stopCh drw && negb (late_tick env)); [by intros [= <- <- _]|].
    destruct (rotateIfNeeded env drw s) as [[s1 drw1] r1] eqn:Hr.
    apply rotateIfNeeded_names in Hr as (Hn & _ & Hmax); [|done].
    destruct r1; intros [= <- <- _]; (split; [done|lia]).
Qed.

(** C10.  A writer made with a limit that is zero or negative never runs
    the pruner: a rotation check returns what it returns for the limit 0,
    and whatever is done to the writer, every name that was in the system
    is still there, with the file it named. *)
Theorem no_limit_removes_nothing
    (env0 : Env) (path : string) (limit : Z) (s0 s : os.OS)
    (drw : DailyRotateWriter) :
  limit <= 0 ->
  NewDailyRotateWriter env0 path [limit] s0 = (s, inl drw) ->
  maxFiles drw = limit /\
  os.names s0 ⊆ os.names s /\
  (forall ops s' drw' rs,
     run ops (s, drw) = (s', drw', rs) -> os.names s ⊆ os.names s') /\
  (forall env s' drw' r,
     rotateIfNeeded env drw s = (s', drw', r) ->
     rotateIfNeeded env (with_maxFiles drw 0) s = (s', with_maxFiles drw' 0, r)).
Proof.
  intros Hl Hnew. unfold NewDailyRotateWriter in Hnew.
  destruct (rotateIfNeeded env0 _ s0) as [[s1 drw1] r1] eqn:Hr0.
  destruct r1; simplify_eq.
  apply rotateIfNeeded_names in Hr0 as (Hn0 & _ & Hmax); [|done]. cbn in Hmax.
  split; [done|]. split; [done|]. split.
  - assert (Hm : maxFiles drw <= 0) by lia. clear Hn0 Hmax.
    intros ops. revert s drw Hm.
    induction ops as [|o ops IH]; intros s drw Hm s' drw' rs; cbn [run].
    + by intros [= <- _ _].
    + destruct (step o (s, drw)) as [[s1 drw1] r1] eqn:Hs.
      apply step_names in Hs as [Hn1 Hm1]; [|done].
      destruct (run ops (s1, drw1)) as [[s2 drw2] rs2] eqn:Hrun.
      destruct r1; intros [= <- <- _];
        first [exact Hn1 | etrans; [exact Hn1|]; by eapply IH].
  - intros env s' drw' r. unfold rotateIfNeeded, with_maxFiles. cbn.
    destruct (not_nil (file drw) && String.eqb (lastDate drw) (now_date env)).
    { intros [= <- <- <-]. done. }
    assert (Hro : forall m,
      rotateOpen env (mkWriter (basePath drw) (file drw) (lastDate drw)
                               (stopCh drw) m) s =
      let '(s2, d2, r2) := rotateOpen env drw s in
      (s2, mkWriter (basePath d2) (file d2) (lastDate d2) (stopCh d2) m, r2)).
    { intros m. unfold rotateOpen, with_file. clear. destruct drw as [bp fl ld st mf].
      cbn. destruct fl as [f|]; cbn.
      - destruct (os.Close s f (flt_close env)) as [s1 [e1|]]; cbn; [done|].
        repeat (case_match; simplify_eq; cbn in *; try done).
      - repeat (case_match; simplify_eq; cbn in *; try done). }
    rewrite (Hro 0).
    destruct (rotateOpen env drw s) as [[s2 d2] r2] eqn:Hro2.
    assert (Hmax2 : maxFiles d2 = maxFiles drw).
    { unfold rotateOpen in Hro2. repeat case_match; simplify_eq; done. }
    destruct r2; cbn.
    + assert (Hlt : (0 <? maxFiles d2) = false) by (apply Z.ltb_ge; lia).
      rewrite Hlt. intros [= <- <- <-]. done.
    + intros [= <- <- <-]. done.
    + intros [= <- <- <-]. done.
Qed.

Lemma no_limit_removes_nothing_witness :
  maxFiles (snd day1_negative) = -3 /\
  forall ops s' drw' rs,
    run ops (fst day1_negative, snd day1_negative) = (s', drw', rs) ->
    os.names (fst day1_negative) ⊆ os.names s'.
Proof.
  assert (Hnew : NewDailyRotateWriter (calm "2024-01-15" 100) "logs/app.log"
                   [-3] empty_os = (fst day1_negative, inl (snd day1_negative)))
    by (vm_compute; reflexivity).
  destruct (no_limit_removes_nothing _ _ (-3) _ _ _ ltac:(lia) Hnew)
    as (Hm & _ & Hrun & _).
  split; [exact Hm | exact Hrun].
Defined.

(** ** Strings *)

Lemma str_app_cons a s t : String a s ++ t = String a (s ++ t).
Proof. reflexivity. Qed.

Lemma str_app_nil_l t : "" ++ t = t.
Proof. reflexivity. Qed.

Lemma str_length_app s t :
  String.length (s ++ t) = (String.length s + String.length t)%nat.
Proof.
  induction s as [|a s IH]; [done|]. rewrite str_app_cons. cbn. by rewrite IH.
Qed.

Lemma str_app_nil_r s : s ++ "" = s.
Proof. induction s as [|a s IH]; [done|]. by rewrite str_app_cons, IH. Qed.

Lemma str_app_assoc s t u : (s ++ t) ++ u = s ++ (t ++ u).
Proof. induction s as [|a s IH]; [done|]. by rewrite !str_app_cons, IH. Qed.

Lemma substring_full s : substring 0 (String.length s) s = s.
Proof. induction s as [|a s IH]; simpl; [done|]. by rewrite IH. Qed.

Lemma substring_0_app s t : substring 0 (String.length s) (s ++ t) = s.
Proof.
  induction s as [|a s IH]; [by destruct t|]. rewrite str_app_cons. cbn.
  by rewrite IH.
Qed.

Lemma substring_skip_app s t m :
  substring (String.length s) m (s ++ t) = substring 0 m t.
Proof.
  induction s as [|a s IH]; [done|]. rewrite str_app_cons. cbn. exact IH.
Qed.

Lemma slice_split s n :
  (n <= String.length s)%nat -> slice_to s n ++ slice_from s n = s.
Proof.
  unfold slice_to, slice_from. revert n.
  induction s as [|a s IH]; intros [|n] Hn; cbn in *; try done; try lia.
  - by rewrite substring_full.
  - rewrite str_app_cons, IH; [done|lia].
Qed.

Lemma slice_to_length s n :
  (n <= String.length s)%nat -> String.length (slice_to s n) = n.
Proof.
  unfold slice_to. revert n.
  induction s as [|a s IH]; intros [|n] Hn; cbn in *; try done; try lia.
  rewrite IH; [done|lia].
Qed.

Lemma slice_from_length s n :
  String.length (slice_from s n) = (String.length s - n)%nat.
Proof.
  unfold slice_from. revert n.
  induction s as [|a s IH]; intros [|n]; cbn; try done.
  by rewrite substring_full.
Qed.

Lemma slice_from_cons s i c :
  String.get i s = Some c -> slice_from s i = String c (slice_from s (S i)).
Proof.
  unfold slice_from. revert i.
  induction s as [|a s IH]; intros [|i]; cbn; try done.
  - intros [= ->]. by rewrite Nat.sub_0_r.
  - intros H. by apply IH.
Qed.

Lemma get_Some_lt s i c : String.get i s = Some c -> (i < String.length s)%nat.
Proof.
  revert i. induction s as [|a s IH]; intros [|i]; cbn; try done; try lia.
  intros H. apply IH in H. lia.
Qed.

Lemma get_None_ge s i : String.get i s = None -> (String.length s <= i)%nat.
Proof.
  revert i. induction s as [|a s IH]; intros [|i]; cbn; try done; try lia.
  intros H. apply IH in H. lia.
Qed.

Lemma get_slice_from s i k :
  String.get k (slice_from s i) = String.get (k + i) s.
Proof.
  unfold slice_from. revert i k.
  induction s as [|a s IH]; intros [|i] k; cbn.
  - by destruct k.
  - by destruct k.
  - rewrite Nat.add_0_r.
    change (String a (substring 0 (String.length s) s))
      with (substring 0 (String.length (String a s)) (String a s)).
    by rewrite substring_full.
  - rewrite Nat.add_succ_r. cbn. apply IH.
Qed.

Lemma has_byte_false c s :
  has_byte c s = false <-> forall k, String.get k s <> Some c.
Proof.
  induction s as [|a s IH]; cbn.
  - split; [by intros _ [|k]|done].
  - rewrite orb_false_iff, IH. split.
    + intros [Ha Hs] [|k]; [|apply Hs].
      intros [= ->]. by rewrite Ascii.eqb_refl in Ha.
    + intros H. split.
      * destruct (Ascii.eqb a c) eqn:E; [|done].
        apply Ascii.eqb_eq in E as ->. by destruct (H 0%nat).
      * intros k. apply (H (S k)).
Qed.

Lemma has_byte_true c s :
  has_byte c s = true <-> exists k, String.get k s = Some c.
Proof.
  induction s as [|a s IH]; cbn.
  - split; [done|]. by intros [[|k] ?].
  - rewrite orb_true_iff, IH. split.
    + intros [Ha|[k Hk]].
      * apply Ascii.eqb_eq in Ha as ->. by exists 0%nat.
      * by exists (S k).
    + intros [[|k] Hk]; [left|right; by exists k].
      injection Hk as ->. apply Ascii.eqb_refl.
Qed.

Lemma prefix_app p a b : String.prefix (p ++ a) (p ++ b) = String.prefix a b.
Proof.
  induction p as [|c p IH]; [done|]. rewrite !str_app_cons. cbn.
  destruct (ascii_dec c c); [done|congruence].
Qed.

Lemma prefix_cons_ne a s b t :
  a <> b -> String.prefix (String a s) (String b t) = false.
Proof. intros H. cbn. by destruct (ascii_dec a b). Qed.

(** ** filepath.Ext *)

Lemma Ext_loop_cases path n :
  (n <= String.length path)%nat ->
  (filepath.Ext_loop path n = "" /\
   forall j, (j < n)%nat -> String.get j path = Some "."%char ->
             exists k, (j < k < n)%nat /\ String.get k path = Some "/"%char)
  \/
  (exists i, (i < n)%nat /\ String.get i path = Some "."%char /\
             filepath.Ext_loop path n = slice_from path i /\
             forall k, (i < k < n)%nat ->
                       String.get k path <> Some "."%char /\
                       String.get k path <> Some "/"%char).
Proof.
  induction n as [|n IH]; intros Hn; cbn.
  - left. split; [done|]. intros j Hj. lia.
  - destruct (String.get n path) as [c|] eqn:Hg.
    2:{ apply get_None_ge in Hg. lia. }
    unfold filepath.IsPathSeparator.
    destruct (Ascii.eqb c "/") eqn:Hsep.
    { apply Ascii.eqb_eq in Hsep as ->. left. split; [done|].
      intros j Hj Hdot. assert (j <> n) by congruence.
      exists n. split; [lia|done]. }
    destruct (Ascii.eqb c ".") eqn:Hdot.
    { apply Ascii.eqb_eq in Hdot as ->. right. exists n.
      split; [lia|]. split; [done|]. split; [done|]. intros k Hk. lia. }
    apply Ascii.eqb_neq in Hsep, Hdot.
    destruct IH as [[He Hall]|(i & Hi & Hgi & He & Hall)]; [lia| |].
    + left. split; [done|]. intros j Hj Hd.
      assert (j <> n) by congruence.
      destruct (Hall j ltac:(lia) Hd) as (k & Hk & Hgk). exists k. split; [lia|done].
    + right. exists i. split; [lia|]. split; [done|]. split; [done|].
      intros k Hk. destruct (decide (k = n)) as [->|Hne].
      * rewrite Hg. split; congruence.
      * apply Hall. lia.
Qed.

(** [filepath.Ext] cuts the path at the last dot of its last element: it
    is empty when that element has no dot. *)
Lemma Ext_spec path :
  path = slice_to path (String.length path - String.length (filepath.Ext path))
         ++ filepath.Ext path /\
  (filepath.Ext path = "" \/
   exists e, filepath.Ext path = String "." e /\
             has_byte "." e = false /\ has_byte "/" e = false) /\
  (filepath.Ext path = "" ->
   forall pre suf, path = pre ++ String "." suf -> has_byte "/" suf = true).
Proof.
  unfold filepath.Ext.
  destruct (Ext_loop_cases path (String.length path) ltac:(lia))
    as [[He Hall]|(i & Hi & Hgi & He & Hall)]; rewrite He.
  - split; [|split; [by left|]].
    + cbn. rewrite Nat.sub_0_r. unfold slice_to.
      by rewrite substring_full, str_app_nil_r.
    + intros _ pre suf Hp.
      assert (Hd : String.get (String.length pre) path = Some "."%char).
      { rewrite Hp.
        exact (eq_sym (append_correct2 pre (String "." suf) 0)). }
      destruct (Hall _ (get_Some_lt _ _ _ Hd) Hd) as (k & Hk & Hgk).
      apply has_byte_true. exists (k - String.length pre - 1)%nat.
      rewrite Hp in Hgk.
      replace k with (S (k - String.length pre - 1) + String.length pre)%nat
        in Hgk by lia.
      by rewrite <- (append_correct2 pre (String "." suf)) in Hgk.
  - rewrite slice_from_length.
    replace (String.length path - (String.length path - i))%nat with i by lia.
    split; [by rewrite slice_split by lia|]. split.
    + right. exists (slice_from path (S i)).
      split; [by apply slice_from_cons|].
      split; apply has_byte_false; intros k; rewrite get_slice_from;
        (destruct (String.get (k + S i) path) as [c|] eqn:Hg; [|done]);
        apply get_Some_lt in Hg as Hlt;
        destruct (Hall (k + S i)%nat ltac:(lia)) as [H1 H2]; congruence.
    + by rewrite (slice_from_cons _ _ _ Hgi).
Qed.

(** C6.  The name a rotation check derives for the date [D] is
    [prefix + "-" + D + ext], where [prefix + ext] is the base path cut at
    the last dot of its last element; without such a dot it is the base
    path followed by ["-" + D + ".log"].  A check that gets as far as
    opening the file leaves the writer with a handle on the file of that
    name. *)
Theorem newFilename_spec (path D : string) :
  let ext := filepath.Ext path in
  exists prefix,
    path = prefix ++ ext /\
    (ext = "" \/
     exists e, ext = String "." e /\
               has_byte "." e = false /\ has_byte "/" e = false) /\
    (ext = "" ->
     forall pre suf, path = pre ++ String "." suf -> has_byte "/" suf = true) /\
    newFilename path D =
      (if nonempty ext then prefix ++ "-" ++ D ++ ext
       else path ++ "-" ++ D ++ ".log") /\
    (forall env drw s s' drw',
       basePath drw = path -> now_date env = D ->
       rotateOpen env drw s = (s', drw', Nil) ->
       exists f i,
         file drw' = Some f /\
         os.fds s' !! f = Some (os.Fd i true) /\
         os.names s' !! os.resolve (newFilename path D) = Some (os.NFile i)).
Proof.
  intros ext. destruct (Ext_spec path) as (Hsplit & Hshape & Hnone).
  exists (slice_to path (String.length path - String.length ext)).
  split; [exact Hsplit|]. split; [exact Hshape|]. split; [exact Hnone|]. split.
  - unfold newFilename. fold ext. destruct (nonempty ext) eqn:Hne; [done|].
    destruct ext; [|done]. by rewrite !str_app_assoc.
  - intros env drw s s' drw' <- <- Hro.
    apply rotateOpen_Nil in Hro as (f & i & -> & Hfd & Hn). eauto.
Qed.

Lemma newFilename_spec_witness :
  newFilename "logs/app.log" "2024-01-15" = "logs/app-2024-01-15.log" /\
  newFilename "logs.d/app" "2024-01-15" = "logs.d/app-2024-01-15.log" /\
  exists f i,
    file (snd day1) = Some f /\
    os.fds (fst day1) !! f = Some (os.Fd i true) /\
    os.names (fst day1) !! os.resolve "logs/app-2024-01-15.log"
      = Some (os.NFile i).
Proof.
  destruct (newFilename_spec "logs/app.log" "2024-01-15")
    as (prefix & _ & _ & _ & _ & Hopen).
  split; [reflexivity|]. split; [reflexivity|].
  apply (Hopen (calm "2024-01-15" 100)
           (mkWriter "logs/app.log" None "" false 0) empty_os
           (fst day1) (snd day1));
    [reflexivity | reflexivity | vm_compute; reflexivity].
Defined.

(** ** The pruner *)

Lemma remove_all_lookup ps n key :
  remove_all ps n !! key =
  if decide (key ∈ os.resolve <$> ps) then None else n !! key.
Proof.
  unfold remove_all. revert n. induction ps as [|p ps IH]; intros n.
  - cbn. case_decide as H; [|done]. by apply elem_of_nil in H.
  - cbn [foldl]. rewrite IH, fmap_cons.
    destruct (decide (key ∈ os.resolve p :: (os.resolve <$> ps))) as [Hc|Hc];
      destruct (decide (key ∈ os.resolve <$> ps)) as [Hin|Hin]; try done.
    + apply elem_of_cons in Hc as [->|Hc]; [|done]. apply lookup_delete_eq.
    + exfalso. apply Hc, elem_of_cons. by right.
    + apply lookup_delete_ne. intros <-. apply Hc, elem_of_cons. by left.
Qed.

Lemma removeOldest_names env l n i s s' r :
  removeOldest env l n i s = (s', r) ->
  exists m, (m <= n)%nat /\
    os.names s' = remove_all (take m (drop i l)) (os.names s) /\
    (r = Nil -> m = n).
Proof.
  revert i s. induction n as [|n IH]; intros i s; cbn.
  - intros [= <- <-]. by exists 0%nat.
  - destruct (l !! i) as [path|] eqn:Hl.
    2:{ intros [= <- <-]. exists 0%nat. split; [lia|]. by split. }
    destruct (os.Remove s path (flt_remove env path)) as [s1 [err|]] eqn:Hr.
    + intros [= <- <-]. exists 0%nat. split; [lia|]. split; [|done].
      unfold os.Remove in Hr. repeat case_match; simplify_eq; done.
    + intros H. apply IH in H as (m & Hm & Hn & Hnil).
      exists (S m). split; [lia|].
      assert (Hs1 : os.names s1 = delete (os.resolve path) (os.names s)).
      { unfold os.Remove in Hr. repeat case_match; simplify_eq; done. }
      rewrite (drop_S _ _ _ Hl). cbn. rewrite <- Hs1. split; [done|].
      intros Hnil'. by rewrite (Hnil Hnil').
Qed.

Lemma elem_of_entries s dir e :
  e ∈ os.entries s dir <->
  exists nd, os.names s !! (dir, os.Name e) = Some nd /\
             os.EntryIsDir e = node_is_dir nd.
Proof.
  unfold os.entries. rewrite merge_sort_Permutation.
  rewrite list_elem_of_fmap. split.
  - intros ([[d n] nd] & -> & Hin). apply list_elem_of_filter in Hin as [Hd Hin].
    apply elem_of_map_to_list in Hin. unfold os.in_dir in Hd. cbn in Hd.
    apply String.eqb_eq in Hd as ->. exists nd. by destruct nd.
  - intros (nd & Hl & Hd). exists (dir, os.Name e, nd). split.
    + destruct e as [n b]. cbn in *. rewrite Hd. by destruct nd.
    + apply list_elem_of_filter. split.
      * unfold os.in_dir. cbn. apply String.eqb_refl.
      * by apply elem_of_map_to_list.
Qed.

Lemma NoDup_entries s dir : NoDup (os.Name <$> os.entries s dir).
Proof.
  unfold os.entries. rewrite merge_sort_Permutation, <- list_fmap_compose.
  apply NoDup_fmap_2_strong.
  - intros [[d1 n1] v1] [[d2 n2] v2] H1 H2. cbn. intros ->.
    apply list_elem_of_filter in H1 as [Hd1 H1], H2 as [Hd2 H2].
    unfold os.in_dir in *. cbn in *.
    apply String.eqb_eq in Hd1 as ->, Hd2 as ->.
    apply elem_of_map_to_list in H1, H2. congruence.
  - apply NoDup_filter, NoDup_map_to_list.
Qed.

Lemma elem_of_logFiles path files p :
  p ∈ logFiles path files <->
  exists entry, entry ∈ files /\
    isLogFile (logPrefix path) (logExt path) entry = true /\
    p = filepath.Join (filepath.Dir path) (os.Name entry).
Proof.
  unfold logFiles. rewrite list_elem_of_fmap. split.
  - intros (e & -> & He). apply list_elem_of_filter in He as [H1 H2]. eauto.
  - intros (e & He & Hlog & ->). exists e. split; [done|].
    by apply list_elem_of_filter.
Qed.

Lemma sortByModTime_Permutation env s l l' :
  sortByModTime env s l = Some l' -> l' ≡ₚ l.
Proof.
  unfold sortByModTime, sort_Slice. case_match; [done|].
  intros [= <-]. apply merge_sort_Permutation.
Qed.

Lemma Base_not_logFile path entry :
  os.Name entry = filepath.Base path ->
  isLogFile (logPrefix path) (logExt path) entry = false.
Proof.
  intros Hname. unfold isLogFile, strings.HasPrefix. rewrite Hname.
  destruct (Ext_spec (filepath.Base path)) as (Hsplit & Hshape & _).
  assert (Hpre : String.prefix (logPrefix path ++ "-") (filepath.Base path) = false).
  { unfold logPrefix, logExt in *.
    destruct Hshape as [He|(e & He & _)].
    - rewrite He. cbn [nonempty].
      rewrite <- (str_app_nil_r (filepath.Base path)) at 2.
      by rewrite prefix_app.
    - rewrite He in *. cbn [nonempty]. rewrite Hsplit at 3.
      rewrite prefix_app. by apply prefix_cons_ne. }
  rewrite Hpre. by rewrite andb_false_r.
Qed.

(** C5, as the code has it.  The paths the pruner may remove are those of
    the directory entries that are not directories and whose name starts
    with [prefix + "-"]; when the base name has an extension they are
    exactly those that also end with it.  What stands between is not
    looked at.  The base file is not among them, and a name that the
    pruner removes is the name one of these paths resolves to. *)
Theorem logFiles_spec (path : string) :
  let dir := filepath.Dir path in
  let prefix := logPrefix path in
  let ext := logExt path in
  (forall files p,
     p ∈ logFiles path files <->
     exists entry, entry ∈ files /\ isLogFile prefix ext entry = true /\
                   p = filepath.Join dir (os.Name entry)) /\
  (forall entry,
     isLogFile prefix ext entry = true ->
     os.EntryIsDir entry = false /\
     strings.HasPrefix (os.Name entry) (prefix ++ "-") = true) /\
  (ext <> "" ->
   forall entry,
     isLogFile prefix ext entry = true <->
     os.EntryIsDir entry = false /\
     strings.HasPrefix (os.Name entry) (prefix ++ "-") = true /\
     strings.HasSuffix (os.Name entry) ext = true) /\
  (forall entry,
     os.Name entry = filepath.Base path -> isLogFile prefix ext entry = false) /\
  (forall env drw s s' r key nd,
     basePath drw = path ->
     cleanOldLogFiles env drw s = (s', r) ->
     os.names s !! key = Some nd ->
     os.names s' !! key = Some nd \/
     exists entry, entry ∈ os.entries s dir /\
                   isLogFile prefix ext entry = true /\
                   key = os.resolve (filepath.Join dir (os.Name entry))).
Proof.
  intros dir prefix ext. split; [intros; apply elem_of_logFiles|].
  split; [|split; [|split; [intros; by apply Base_not_logFile|]]].
  - intros entry H. unfold isLogFile in H.
    apply andb_true_iff in H as [H _]. apply andb_true_iff in H as [H1 H2].
    by apply negb_true_iff in H1.
  - intros Hext entry. unfold isLogFile.
    assert (Hne : nonempty ext = true) by (by destruct ext).
    rewrite Hne. cbn [negb andb]. rewrite orb_false_r, !andb_true_iff, negb_true_iff.
    tauto.
  - intros env drw s s' r key nd <- Hclean Hkey.
    unfold cleanOldLogFiles in Hclean.
    destruct (os.ReadDir s _ _) as [files|err] eqn:Hrd; [|simplify_eq; by left].
    assert (files = os.entries s dir) as ->.
    { unfold os.ReadDir in Hrd. repeat case_match; simplify_eq; done. }
    case_match; [simplify_eq; by left|].
    destruct (sortByModTime env s _) as [sorted|] eqn:Hsort; [|simplify_eq; by left].
    apply sortByModTime_Permutation in Hsort.
    apply removeOldest_names in Hclean as (m & _ & Hn & _).
    rewrite Hn, remove_all_lookup. case_decide as Hin; [right|by left].
    apply list_elem_of_fmap in Hin as (p & -> & Hp).
    apply elem_of_take in Hp as (j & Hp & _).
    apply list_elem_of_lookup_2 in Hp. rewrite drop_0, Hsort in Hp.
    apply elem_of_logFiles in Hp as (entry & He & Hlog & ->). eauto.
Qed.

Lemma logFiles_spec_witness :
  isLogFile "app" ".log" (os.Entry "app-2024-01-01.log" false) = true /\
  isLogFile "app" ".log" (os.Entry "app-2024-01-01.txt" false) = false /\
  isLogFile "app" ".log" (os.Entry "app.log" false) = false.
Proof.
  destruct (logFiles_spec "logs/app.log") as (_ & _ & Hiff & Hbase & _).
  split; [|split].
  - apply Hiff; [discriminate|]. repeat split; reflexivity.
  - apply not_true_is_false. intros H. apply Hiff in H as (_ & _ & H);
      [discriminate H | discriminate].
  - apply Hbase. reflexivity.
Defined.

(** C5 as stated fails: [app-backup.log] has no date between prefix and
    extension, and the pruner lists it and removes it. *)
Lemma undated_file_is_pruned :
  logFiles "logs/app.log" (os.entries old_logs "logs") =
    ["logs/app-2024-01-01.log"; "logs/app-2024-01-02.log"; "logs/app-backup.log"] /\
  os.names old_logs !! ("logs", "app-backup.log") = Some (os.NFile 0) /\
  os.names (fst (started (calm "2024-01-15" 100) "logs/app.log" [2] old_logs))
    !! ("logs", "app-backup.log") = None.
Proof. vm_compute. repeat split; reflexivity. Qed.

(** ** Retention *)

Lemma entries_name_inj s dir e1 e2 :
  e1 ∈ os.entries s dir -> e2 ∈ os.entries s dir ->
  os.Name e1 = os.Name e2 -> e1 = e2.
Proof.
  intros (nd1 & H1 & Hd1)%elem_of_entries (nd2 & H2 & Hd2)%elem_of_entries Hn.
  rewrite Hn in H1. destruct e1, e2. cbn in *. congruence.
Qed.

Lemma resolves_to_spec dir entry :
  resolves_to dir entry = true ->
  os.resolve (filepath.Join dir (os.Name entry)) = (dir, os.Name entry).
Proof.
  unfold resolves_to. intros [H1 H2]%andb_true_iff.
  apply String.eqb_eq in H1, H2.
  destruct (os.resolve _) as [d n]. cbn in *. congruence.
Qed.

Section Retention.

Variables (path : string) (s : os.OS).
Let dir := filepath.Dir path.
Hypothesis Hres : paths_resolve path (os.entries s dir) = true.

Lemma logFile_resolves entry :
  entry ∈ os.entries s dir ->
  isLogFile (logPrefix path) (logExt path) entry = true ->
  os.resolve (filepath.Join dir (os.Name entry)) = (dir, os.Name entry).
Proof.
  intros He Hlog. unfold paths_resolve in Hres.
  rewrite forallb_forall in Hres.
  apply list_elem_of_In, Hres in He. rewrite Hlog in He. cbn in He.
  by apply resolves_to_spec.
Qed.

Lemma NoDup_logFiles : NoDup (logFiles path (os.entries s dir)).
Proof.
  unfold logFiles. apply NoDup_fmap_2_strong.
  - intros e1 e2 [Hl1 H1]%list_elem_of_filter [Hl2 H2]%list_elem_of_filter Hj.
    apply (entries_name_inj s dir); [done|done|].
    pose proof (logFile_resolves e1 H1 Hl1) as R1.
    pose proof (logFile_resolves e2 H2 Hl2) as R2.
    fold dir in Hj. rewrite Hj in R1. congruence.
  - apply NoDup_filter. eapply NoDup_fmap_1, NoDup_entries.
Qed.

End Retention.

#[local] Instance not_less_older_trans env s : Transitive (not_less (older env s)).
Proof. intros a b c. unfold not_less, older. rewrite !Z.ltb_ge. lia. Qed.

#[local] Instance not_less_older_total env s : Total (not_less (older env s)).
Proof.
  intros a b. unfold not_less, older. rewrite !Z.ltb_ge. lia.
Qed.

(** The order [sort.Slice] leaves the paths in: by time, and by rank
    where the times are equal. *)
Lemma not_less_ranked env s a b :
  not_less (ranked (sort_rank env) (older env s)) a b <->
  modTime env s a < modTime env s b \/
  (modTime env s a = modTime env s b /\ (sort_rank env a <= sort_rank env b)%nat).
Proof.
  unfold not_less, ranked, older.
  rewrite orb_false_iff, andb_false_iff, negb_false_iff, Z.ltb_ge, Z.ltb_lt,
    Nat.ltb_ge.
  lia.
Qed.

#[local] Instance not_less_ranked_trans env s :
  Transitive (not_less (ranked (sort_rank env) (older env s))).
Proof. intros a b c. rewrite !not_less_ranked. lia. Qed.

#[local] Instance not_less_ranked_total env s :
  Total (not_less (ranked (sort_rank env) (older env s))).
Proof. intros a b. rewrite !not_less_ranked. lia. Qed.

Lemma StronglySorted_weaken {A} (R R' : relation A) l :
  (forall a b, R a b -> R' a b) -> StronglySorted R l -> StronglySorted R' l.
Proof.
  intros HR. induction 1 as [|a l Hl IH Ha]; constructor; [done|].
  eapply Forall_impl; [exact Ha|]. auto.
Qed.

Lemma sortByModTime_sorted env s l l' :
  sortByModTime env s l = Some l' ->
  StronglySorted (not_less (older env s)) l'.
Proof.
  unfold sortByModTime, sort_Slice. case_match; [done|]. intros [= <-].
  apply (StronglySorted_weaken (not_less (ranked (sort_rank env) (older env s)))).
  - intros a b. rewrite not_less_ranked. unfold not_less, older.
    rewrite Z.ltb_ge. lia.
  - apply (StronglySorted_merge_sort
             (not_less (ranked (sort_rank env) (older env s)))); apply _.
Qed.

(** ** Every order that a sort can leave *)

Lemma not_less_ranked_any rank env s a b :
  not_less (ranked rank (older env s)) a b <->
  modTime env s a < modTime env s b \/
  (modTime env s a = modTime env s b /\ (rank a <= rank b)%nat).
Proof.
  unfold not_less, ranked, older.
  rewrite orb_false_iff, andb_false_iff, negb_false_iff, Z.ltb_ge, Z.ltb_lt,
    Nat.ltb_ge.
  lia.
Qed.

#[local] Instance not_less_ranked_any_trans rank env s :
  Transitive (not_less (ranked rank (older env s))).
Proof. intros a b c. rewrite !not_less_ranked_any. lia. Qed.

#[local] Instance not_less_ranked_any_total rank env s :
  Total (not_less (ranked rank (older env s))).
Proof. intros a b. rewrite !not_less_ranked_any. lia. Qed.

Lemma index_of_app pre l a :
  a ∉ pre -> index_of (pre ++ l) a = (length pre + index_of l a)%nat.
Proof.
  induction pre as [|x pre IH]; [done|]. intros Hin. cbn.
  destruct (String.eqb x a) eqn:Hx.
  - apply String.eqb_eq in Hx as ->. destruct Hin. by left.
  - rewrite IH; [done|]. intros H. apply Hin. by right.
Qed.

Lemma index_of_here l a : index_of (a :: l) a = 0%nat.
Proof. cbn. by rewrite String.eqb_refl. Qed.

Lemma index_of_lt l a : a ∈ l -> (index_of l a < length l)%nat.
Proof.
  induction l as [|x l IH]; [by intros ?%elem_of_nil|]. cbn.
  destruct (String.eqb x a) eqn:Hx; [lia|].
  intros [->|Hin]%elem_of_cons; [by rewrite String.eqb_refl in Hx|].
  specialize (IH Hin). lia.
Qed.

Lemma index_of_inj l a b :
  a ∈ l -> b ∈ l -> index_of l a = index_of l b -> a = b.
Proof.
  induction l as [|x l IH]; [by intros ?%elem_of_nil|]. cbn.
  destruct (String.eqb x a) eqn:Ha, (String.eqb x b) eqn:Hb; try done.
  - apply String.eqb_eq in Ha, Hb. congruence.
  - intros [->|Hina]%elem_of_cons; [by rewrite String.eqb_refl in Ha|].
    intros [->|Hinb]%elem_of_cons; [by rewrite String.eqb_refl in Hb|].
    intros [= H]. by apply IH.
Qed.

Lemma sorted_by_index env s pre l :
  NoDup (pre ++ l) ->
  StronglySorted (not_less (older env s)) l ->
  StronglySorted (not_less (ranked (index_of (pre ++ l)) (older env s))) l.
Proof.
  revert pre. induction l as [|x l IH]; intros pre Hnd Hs; [constructor|].
  apply StronglySorted_inv in Hs as [Hs Hx].
  apply NoDup_app in Hnd as (Hpre & Hdisj & Hxl).
  apply NoDup_cons in Hxl as [Hx_l Hl].
  constructor.
  - replace (pre ++ x :: l)%list with ((pre ++ [x]) ++ l)%list
      by (by rewrite <- app_assoc).
    apply IH; [|done]. rewrite <- app_assoc. cbn.
    apply NoDup_app. split; [done|]. split; [done|]. by apply NoDup_cons.
  - rewrite Forall_forall in Hx. apply Forall_forall. intros b Hb.
    apply not_less_ranked_any.
    specialize (Hx b Hb). unfold not_less, older in Hx. apply Z.ltb_ge in Hx.
    assert (Hxpre : x ∉ pre) by (intros H; eapply Hdisj; [exact H|by left]).
    assert (Hbpre : b ∉ pre) by (intros H; eapply Hdisj; [exact H|by right]).
    rewrite !index_of_app by done. rewrite index_of_here. lia.
Qed.

(** Whatever order without an inversion of times [sort.Slice] leaves
    the paths in: there is a rank for which the model leaves them in
    that order. *)
Lemma sortByModTime_any_order env s l l' :
  NoDup l -> l' ≡ₚ l ->
  StronglySorted (not_less (older env s)) l' ->
  sortByModTime env s l <> None ->
  sortByModTime (with_rank env (index_of l')) s l = Some l'.
Proof.
  intros Hnd Hperm Hsorted Hsome. unfold sortByModTime in *.
  change (stat_ok (with_rank env (index_of l')) s) with (stat_ok env s).
  destruct (_ && _); [done|]. f_equal. unfold sort_Slice. cbn [sort_rank with_rank].
  change (fun a b => modTime (with_rank env (index_of l')) s a <?
                     modTime (with_rank env (index_of l')) s b)
    with (older env s).
  assert (Hnd' : NoDup l') by (by rewrite Hperm).
  apply (StronglySorted_unique_strong
           (not_less (ranked (index_of l') (older env s)))).
  - intros a b Ha Hb Hab Hba. rewrite merge_sort_Permutation, <- Hperm in Ha.
    apply not_less_ranked_any in Hab, Hba.
    apply (index_of_inj l'); [done|done|lia].
  - apply StronglySorted_merge_sort; apply _.
  - by apply (sorted_by_index env s []).
  - by rewrite merge_sort_Permutation.
Qed.

Lemma sortByModTime_stat env s l l' p :
  sortByModTime env s l = Some l' -> (2 <= length l)%nat -> p ∈ l ->
  exists info, os.Stat s p false = Some info /\ modTime env s p = os.ModTime info.
Proof.
  unfold sortByModTime. intros Hs Hlen Hp. case_match eqn:Hc; [done|].
  apply andb_false_iff in Hc as [Hc|Hc].
  { apply Nat.leb_gt in Hc. lia. }
  apply negb_false_iff in Hc. rewrite forallb_forall in Hc.
  apply list_elem_of_In, Hc in Hp. unfold stat_ok, modTime in *.
  destruct (os.Stat s p (flt_stat env p)) as [info|] eqn:Hst; [|done].
  exists info. split; [|done]. unfold os.Stat in *.
  by destruct (flt_stat env p).
Qed.

Lemma entries_remove_all s s' dir ps e :
  os.names s' = remove_all ps (os.names s) ->
  e ∈ os.entries s' dir <->
  e ∈ os.entries s dir /\ (dir, os.Name e) ∉ os.resolve <$> ps.
Proof.
  intros Hn. rewrite !elem_of_entries, Hn. split.
  - intros (nd & Hl & Hd). rewrite remove_all_lookup in Hl.
    case_decide; [done|]. eauto.
  - intros [(nd & Hl & Hd) Hnot]. exists nd. rewrite remove_all_lookup.
    by rewrite decide_False.
Qed.

Lemma paths_resolve_remove_all path s s' ps :
  os.names s' = remove_all ps (os.names s) ->
  paths_resolve path (os.entries s (filepath.Dir path)) = true ->
  paths_resolve path (os.entries s' (filepath.Dir path)) = true.
Proof.
  intros Hn. unfold paths_resolve. rewrite !forallb_forall.
  intros H e He. apply H. apply list_elem_of_In.
  apply list_elem_of_In in He.
  by apply (entries_remove_all s s' _ ps e Hn) in He as [He _].
Qed.

(** What the pruner leaves when it returns nil. *)
Lemma cleanOldLogFiles_Nil env drw s s' :
  0 < maxFiles drw ->
  paths_resolve (basePath drw) (os.entries s (filepath.Dir (basePath drw))) = true ->
  cleanOldLogFiles env drw s = (s', Nil) ->
  let before := logFiles (basePath drw) (os.entries s (filepath.Dir (basePath drw))) in
  let after := logFiles (basePath drw) (os.entries s' (filepath.Dir (basePath drw))) in
  (Z.of_nat (length before) <= maxFiles drw -> s' = s) /\
  (maxFiles drw < Z.of_nat (length before) ->
   Z.of_nat (length after) = maxFiles drw /\
   after ⊆ before /\
   forall p q, p ∈ before -> p ∉ after -> q ∈ after ->
     exists ip iq, os.Stat s p false = Some ip /\ os.Stat s q false = Some iq /\
                   os.ModTime ip <= os.ModTime iq).
Proof.
  intros HN Hres Hclean before after. unfold cleanOldLogFiles in Hclean.
  set (dir := filepath.Dir (basePath drw)) in *.
  destruct (os.ReadDir s dir (flt_readdir env)) as [files|err] eqn:Hrd; [|done].
  assert (files = os.entries s dir) as ->.
  { unfold os.ReadDir in Hrd. repeat case_match; simplify_eq; done. }
  fold before in Hclean.
  destruct (Z.of_nat (length before) <=? maxFiles drw) eqn:Hle.
  { apply Z.leb_le in Hle. injection Hclean as <-. split; [done|lia]. }
  apply Z.leb_gt in Hle. split; [lia|]. intros _.
  destruct (sortByModTime env s before) as [sorted|] eqn:Hsort; [|done].
  pose proof (sortByModTime_Permutation _ _ _ _ Hsort) as Hperm.
  pose proof (sortByModTime_sorted _ _ _ _ Hsort) as Hsorted.
  assert (Hlen : length sorted = length before) by (by rewrite Hperm).
  rewrite Hlen in Hclean.
  set (k := Z.to_nat (Z.of_nat (length before) - maxFiles drw)) in *.
  apply removeOldest_names in Hclean as (m & _ & Hn & Hm).
  rewrite (Hm eq_refl), drop_0 in Hn. clear m Hm.
  assert (Hnd : NoDup sorted).
  { rewrite Hperm. by apply NoDup_logFiles. }
  rewrite <- (take_drop k sorted) in Hnd, Hsorted.
  apply NoDup_app in Hnd as (_ & Hdisj & Hndk).
  assert (Hmem : forall p, p ∈ after <-> p ∈ drop k sorted).
  { intros p. unfold after. rewrite elem_of_logFiles. split.
    - intros (e & He & Hlog & ->).
      apply (entries_remove_all s s' dir _ e Hn) in He as [He Hnot].
      assert (Hin : filepath.Join dir (os.Name e) ∈ sorted).
      { rewrite Hperm. apply elem_of_logFiles. eauto. }
      rewrite <- (take_drop k sorted) in Hin.
      apply elem_of_app in Hin as [Hin|Hin]; [|done].
      exfalso. apply Hnot. apply list_elem_of_fmap.
      exists (filepath.Join dir (os.Name e)). split; [|done].
      symmetry. by apply (logFile_resolves (basePath drw) s).
    - intros Hp.
      assert (Hin : p ∈ sorted).
      { rewrite <- (take_drop k sorted). apply elem_of_app. by right. }
      rewrite Hperm in Hin. apply elem_of_logFiles in Hin as (e & He & Hlog & ->).
      exists e. split; [|done].
      apply (entries_remove_all s s' dir _ e Hn). split; [done|].
      intros (p' & Hkey & Hp')%list_elem_of_fmap.
      assert (Hin' : p' ∈ sorted).
      { rewrite <- (take_drop k sorted). apply elem_of_app. by left. }
      rewrite Hperm in Hin'.
      apply elem_of_logFiles in Hin' as (e' & He' & Hlog' & ->).
      rewrite (logFile_resolves (basePath drw) s Hres e' He' Hlog') in Hkey.
      injection Hkey as Hname.
      assert (e = e') as <- by (by apply (entries_name_inj s dir)).
      by apply (Hdisj _ Hp'). }
  split; [|split].
  - assert (Hpa : after ≡ₚ drop k sorted).
    { apply NoDup_Permutation; [|done|done].
      apply NoDup_logFiles. by eapply paths_resolve_remove_all. }
    unfold after in *. rewrite Hpa, length_drop, Hlen. lia.
  - intros p Hp. apply Hmem in Hp.
    assert (Hin : p ∈ sorted).
    { rewrite <- (take_drop k sorted). apply elem_of_app. by right. }
    by rewrite Hperm in Hin.
  - intros p q Hp Hnp Hq. apply Hmem in Hq.
    assert (Hpt : p ∈ take k sorted).
    { rewrite <- Hperm, <- (take_drop k sorted) in Hp.
      apply elem_of_app in Hp as [Hp|Hp]; [done|]. by apply Hmem in Hp. }
    pose proof (StronglySorted_app_1_elem_of _ _ _ _ _ Hsorted Hpt Hq) as Hpq.
    unfold not_less, older in Hpq. apply Z.ltb_ge in Hpq.
    assert (Hq' : q ∈ before).
    { rewrite <- Hperm, <- (take_drop k sorted). apply elem_of_app. by right. }
    destruct (sortByModTime_stat _ _ _ _ p Hsort ltac:(lia) Hp) as (ip & Hip & Hmp).
    destruct (sortByModTime_stat _ _ _ _ q Hsort ltac:(lia) Hq') as (iq & Hiq & Hmq).
    exists ip, iq. split; [done|]. split; [done|]. lia.
Qed.

Lemma substring_nothing n s : substring n 0 s = "".
Proof. revert n. induction s as [|c s IH]; intros [|n]; cbn; auto. Qed.

Lemma HasSuffix_empty s : strings.HasSuffix s "" = true.
Proof. unfold strings.HasSuffix. cbn. by rewrite substring_nothing. Qed.

(** The test of the loop of [cleanOldLogFiles] is [candidate]: with an
    empty extension every name ends with it, and the test for [.log]
    decides nothing. *)
Lemma isLogFile_candidate prefix ext entry :
  isLogFile prefix ext entry = candidate prefix ext entry.
Proof.
  unfold isLogFile, candidate. destruct ext as [|c ext].
  - by rewrite HasSuffix_empty.
  - cbn [nonempty negb andb]. by rewrite orb_false_r.
Qed.

Lemma logFiles_candidates path s :
  logFiles path (os.entries s (filepath.Dir path)) = candidates path s.
Proof.
  unfold logFiles, candidates. f_equal. apply list_filter_iff.
  intros e. by rewrite isLogFile_candidate.
Qed.

Lemma entries_subseteq s s' dir e :
  os.names s ⊆ os.names s' -> e ∈ os.entries s dir -> e ∈ os.entries s' dir.
Proof.
  intros Hsub (nd & Hn & Hd)%elem_of_entries. apply elem_of_entries.
  exists nd. split; [by eapply lookup_weaken|done].
Qed.

Lemma NoDup_os_entries s dir : NoDup (os.entries s dir).
Proof. eapply NoDup_fmap_1, NoDup_entries. Qed.

Lemma candidates_length_mono path s s' :
  os.names s ⊆ os.names s' ->
  (length (candidates path s) <= length (candidates path s'))%nat.
Proof.
  intros Hsub. unfold candidates. rewrite !length_fmap.
  apply submseteq_length, NoDup_submseteq.
  - apply NoDup_filter, NoDup_os_entries.
  - intros e [He1 He2]%list_elem_of_filter. apply list_elem_of_filter.
    split; [done|]. by eapply entries_subseteq.
Qed.

Lemma prefix_self_app a b : String.prefix a (a ++ b) = true.
Proof.
  rewrite <- (str_app_nil_r a) at 1. rewrite prefix_app. by destruct b.
Qed.

Lemma HasSuffix_app x ext : strings.HasSuffix (x ++ ext) ext = true.
Proof.
  unfold strings.HasSuffix. rewrite str_length_app.
  apply andb_true_iff. split; [apply Nat.leb_le; lia|].
  replace (String.length x + String.length ext - String.length ext)%nat
    with (String.length x) by lia.
  rewrite substring_skip_app, substring_full. apply String.eqb_refl.
Qed.

(** A file that matches the naming convention is one the pruner
    counts. *)
Lemma dated_candidate prefix ext entry :
  dated prefix ext entry = true -> candidate prefix ext entry = true.
Proof.
  unfold dated, candidate.
  intros [[Hdir _]%andb_true_iff Hname%String.eqb_eq]%andb_true_iff.
  rewrite Hdir, Hname. cbn [andb]. apply andb_true_iff. split.
  - unfold strings.HasPrefix. rewrite <- str_app_assoc. apply prefix_self_app.
  - rewrite <- !str_app_assoc. apply HasSuffix_app.
Qed.

(** C4, for the files the pruner counts.  For a limit [N > 0]: when the
    check has rotated and its pruning step returned nil, then, counting
    the candidates (the entries of the directory that are no directories
    and whose names start with the prefix and a dash and end with the
    extension) in the directory as it is when the pruner runs, which
    holds every candidate that was there before the check: either there
    were at most [N] and nothing was removed, or there were more and
    exactly [N] are left, all of them among those counted, and none was
    last modified before one that was removed.  So it is when more than
    [N] were there before the check. *)
Theorem retention_keeps_newest
    (env : Env) (drw : DailyRotateWriter) (s s1 : os.OS)
    (drw1 : DailyRotateWriter) (s' : os.OS) (drw' : DailyRotateWriter) :
  0 < maxFiles drw ->
  file drw = None \/ lastDate drw <> now_date env ->
  rotateOpen env drw s = (s1, drw1, Nil) ->
  rotateIfNeeded env drw s = (s', drw', Nil) ->
  paths_resolve (basePath drw)
    (os.entries s1 (filepath.Dir (basePath drw))) = true ->
  let before := candidates (basePath drw) s1 in
  let after := candidates (basePath drw) s' in
  candidates (basePath drw) s ⊆ before /\
  (Z.of_nat (length before) <= maxFiles drw -> s' = s1) /\
  (maxFiles drw < Z.of_nat (length before) ->
   Z.of_nat (length after) = maxFiles drw /\
   after ⊆ before /\
   forall p q, p ∈ before -> p ∉ after -> q ∈ after ->
     exists ip iq, os.Stat s1 p false = Some ip /\ os.Stat s1 q false = Some iq /\
                   os.ModTime ip <= os.ModTime iq) /\
  (maxFiles drw < Z.of_nat (length (candidates (basePath drw) s)) ->
   Z.of_nat (length after) = maxFiles drw).
Proof.
  intros HN Hmust Hro Hrot Hres before after.
  pose proof (rotateOpen_names _ _ _ _ _ _ Hro) as [Hn _].
  split.
  { unfold before, candidates.
    intros p (e & -> & [Hc He]%list_elem_of_filter)%list_elem_of_fmap.
    apply list_elem_of_fmap. exists e. split; [done|].
    apply list_elem_of_filter. split; [done|]. by eapply entries_subseteq. }
  unfold rotateIfNeeded in Hrot.
  assert (Hslow : not_nil (file drw) && String.eqb (lastDate drw) (now_date env)
                  = false).
  { destruct Hmust as [->|Hd]; [done|].
    apply String.eqb_neq in Hd. rewrite Hd. apply andb_false_r. }
  rewrite Hslow, Hro in Hrot.
  pose proof Hro as (f & i & -> & _)%rotateOpen_Nil. cbn in Hrot.
  assert (Hlt : (0 <? maxFiles drw) = true) by (by apply Z.ltb_lt).
  rewrite Hlt in Hrot.
  match type of Hrot with context [cleanOldLogFiles ?a ?b ?c] =>
    destruct (cleanOldLogFiles a b c) as [s2 r2] eqn:Hclean end.
  destruct r2; simplify_eq.
  pose proof (cleanOldLogFiles_Nil env _ s1 s' HN Hres Hclean) as H.
  cbn in H. rewrite !logFiles_candidates in H. destruct H as [Hle Hgt].
  split; [exact Hle|]. split; [exact Hgt|].
  intros Hmore. apply Hgt.
  pose proof (candidates_length_mono (basePath drw) s s1 Hn). unfold before. lia.
Qed.

Lemma retention_keeps_newest_witness :
  let drw := mkWriter "logs/app.log" None "" false 2 in
  let s' := fst (fst (rotateIfNeeded (calm "2024-01-15" 100) drw old_logs)) in
  candidates "logs/app.log" s' =
    ["logs/app-2024-01-02.log"; "logs/app-2024-01-15.log"] /\
  Z.of_nat (length (candidates "logs/app.log" s')) = 2.
Proof.
  intros drw s'.
  pose (ro := rotateOpen (calm "2024-01-15" 100) drw old_logs).
  pose (ri := rotateIfNeeded (calm "2024-01-15" 100) drw old_logs).
  assert (Hro : rotateOpen (calm "2024-01-15" 100) drw old_logs
                = (fst (fst ro), snd (fst ro), Nil)) by (vm_compute; reflexivity).
  assert (Hri : rotateIfNeeded (calm "2024-01-15" 100) drw old_logs
                = (s', snd (fst ri), Nil)) by (vm_compute; reflexivity).
  destruct (retention_keeps_newest (calm "2024-01-15" 100) drw old_logs
              _ _ _ _ ltac:(cbn; lia) (or_introl eq_refl) Hro Hri
              ltac:(vm_compute; reflexivity)) as (_ & _ & _ & Hmore).
  split; [vm_compute; reflexivity|].
  apply Hmore. vm_compute. reflexivity.
Defined.

(** C4 as stated fails: three files that carry a date are in the
    directory and the limit is 2, but [app-backup.log], which carries
    none and was written last, is counted as well; the check returns nil
    and of the files that carry a date it leaves the one of the day
    only. *)
Lemma undated_file_takes_a_place :
  let drw := mkWriter "logs/app.log" None "" false 2 in
  let r := rotateIfNeeded (calm "2024-01-15" 100) drw mixed_logs in
  snd r = Nil /\
  os.Name <$> filter (fun e => dated "app" ".log" e = true)
                     (os.entries mixed_logs "logs") =
    ["app-2024-01-01.log"; "app-2024-01-02.log"; "app-2024-01-03.log"] /\
  os.Name <$> filter (fun e => dated "app" ".log" e = true)
                     (os.entries (fst (fst r)) "logs") =
    ["app-2024-01-15.log"] /\
  os.Name <$> os.entries (fst (fst r)) "logs" =
    ["app-2024-01-15.log"; "app-backup.log"].
Proof. vm_compute. repeat split; reflexivity. Qed.

(** ** NewFromConfig on a value that is no configuration *)

(** C9: for every value [c] that is neither a [*Config] nor a struct,
    [NewFromConfig(c)] returns, without touching the file system and
    without an error, the logger of the defaults: level info, the text
    handler on standard output, and no rotating writer.  A pointer to a
    struct other than [Config] is such a value, whatever its fields
    hold. *)
Theorem NewFromConfig_defaults
  (env : Env) (c : value) (s : os.OS)
  (Hconfig : forall conf, c <> ConfigPtr conf)
  (Hstruct : reflect.KindOf c <> reflect.Struct) :
  NewFromConfig env c s =
    (s, inl (mkSlogLogger (mkLogger TextHandler Stdout slog.LevelInfo [])
                          None LevelInfo,
             None)).
Proof.
  destruct c; try reflexivity.
  - now contradiction Hstruct.
  - now contradiction (Hconfig conf).
Qed.

Lemma NewFromConfig_defaults_witness :
  let custom :=
    PtrValue (Some (StructValue [("Level", StringValue "debug");
                                 ("Format", StringValue "json");
                                 ("Output", StringValue "logs/app.log");
                                 ("Daily", BoolValue true)])) in
  NewFromConfig (calm "2024-01-15" 100) custom empty_os =
    (empty_os,
     inl (mkSlogLogger (mkLogger TextHandler Stdout slog.LevelInfo [])
                       None LevelInfo,
          None)).
Proof.
  intros custom.
  apply (NewFromConfig_defaults (calm "2024-01-15" 100) custom empty_os).
  - intros conf; discriminate.
  - discriminate.
Defined.

(** ** Levels and their names *)

Lemma is_space_lower c : strings.is_space (strings.lower_ascii c) = strings.is_space c.
Proof. by destruct c as [[] [] [] [] [] [] [] []]. Qed.

Lemma lower_ascii_idemp c :
  strings.lower_ascii (strings.lower_ascii c) = strings.lower_ascii c.
Proof. by destruct c as [[] [] [] [] [] [] [] []]. Qed.

Lemma ToLower_idemp s : strings.ToLower (strings.ToLower s) = strings.ToLower s.
Proof. induction s as [|c s IH]; cbn; [done|]. by rewrite lower_ascii_idemp, IH. Qed.

Lemma TrimLeft_ToLower s :
  strings.TrimLeft (strings.ToLower s) = strings.ToLower (strings.TrimLeft s).
Proof.
  induction s as [|c s IH]; cbn; [done|].
  rewrite is_space_lower. by destruct (strings.is_space c).
Qed.

Lemma TrimRight_ToLower s :
  strings.TrimRight (strings.ToLower s) = strings.ToLower (strings.TrimRight s).
Proof.
  induction s as [|c s IH]; cbn; [done|].
  rewrite IH, is_space_lower.
  destruct (strings.TrimRight s); cbn; [|done].
  by destruct (strings.is_space c).
Qed.

Lemma TrimSpace_ToLower s :
  strings.TrimSpace (strings.ToLower s) = strings.ToLower (strings.TrimSpace s).
Proof. unfold strings.TrimSpace. by rewrite TrimLeft_ToLower, TrimRight_ToLower. Qed.

Lemma TrimLeft_pad pad s :
  all_space pad = true -> strings.TrimLeft (pad ++ s) = strings.TrimLeft s.
Proof.
  induction pad as [|c pad IH]; cbn; [done|].
  intros [Hc Hp]%andb_true_iff. rewrite str_app_cons. cbn.
  rewrite Hc. auto.
Qed.

Lemma TrimRight_all_space pad :
  all_space pad = true -> strings.TrimRight pad = "".
Proof.
  induction pad as [|c pad IH]; cbn; [done|].
  intros [-> Hp]%andb_true_iff. by rewrite IH.
Qed.

Lemma TrimRight_pad s pad :
  all_space pad = true -> strings.TrimRight (s ++ pad) = strings.TrimRight s.
Proof.
  intros Hp. induction s as [|c s IH].
  - rewrite str_app_nil_l. by apply TrimRight_all_space.
  - rewrite str_app_cons. cbn. by rewrite IH.
Qed.

Lemma TrimLeft_app_pad s pad :
  all_space pad = true ->
  strings.TrimRight (strings.TrimLeft (s ++ pad)) = strings.TrimRight (strings.TrimLeft s).
Proof.
  intros Hp. induction s as [|c s IH].
  - rewrite str_app_nil_l. cbn.
    assert (Hl : forall p, all_space p = true -> strings.TrimLeft p = "").
    { induction p as [|a p IHp]; cbn; [done|]. by intros [-> ?]%andb_true_iff; auto. }
    by rewrite Hl.
  - rewrite str_app_cons. cbn. destruct (strings.is_space c); [done|].
    rewrite <- str_app_cons. by apply TrimRight_pad.
Qed.

Lemma TrimSpace_pad pre s post :
  all_space pre = true -> all_space post = true ->
  strings.TrimSpace (pre ++ s ++ post) = strings.TrimSpace s.
Proof.
  intros Hpre Hpost. unfold strings.TrimSpace.
  by rewrite TrimLeft_pad, TrimLeft_app_pad.
Qed.

(** [parseLevel] decides on the trimmed, lowered word alone. *)
Lemma parseLevel_word a b :
  strings.ToLower (strings.TrimSpace a) = strings.ToLower (strings.TrimSpace b) ->
  fst (parseLevel a) = fst (parseLevel b) /\
  (snd (parseLevel a) = None <-> snd (parseLevel b) = None).
Proof.
  unfold parseLevel. intros ->.
  repeat (destruct (_ || _) || destruct (String.eqb _ _)); cbn; done.
Qed.

(** X1: [parseLevel] reads a level name of ASCII characters whatever
    the case of its letters and whatever ASCII white space (space, tab,
    line feed, vertical tab, form feed, carriage return) stands around
    it: the level, and whether there is an error, are those of the
    lowered name alone. *)
Theorem parseLevel_case_and_space
  (pre s post : string)
  (Hpre : all_space pre = true) (Hpost : all_space post = true)
  (Hascii : is_ascii s = true) :
  fst (parseLevel (pre ++ s ++ post)) = fst (parseLevel (strings.ToLower s)) /\
  (snd (parseLevel (pre ++ s ++ post)) = None <->
   snd (parseLevel (strings.ToLower s)) = None).
Proof.
  apply parseLevel_word.
  by rewrite TrimSpace_pad, TrimSpace_ToLower, ToLower_idemp.
Qed.

Lemma parseLevel_case_and_space_witness :
  fst (parseLevel ("  " ++ "WARNING" ++ " ")) = LevelWarn /\
  snd (parseLevel ("  " ++ "WARNING" ++ " ")) = None.
Proof.
  destruct (parseLevel_case_and_space "  " "WARNING" " " eq_refl eq_refl eq_refl)
    as [Hl He].
  split; [exact Hl | apply He; reflexivity].
Defined.

(** ** NewFromConfig and NewSlogLogger *)

(** X2: when the level of a [*Config], a string of ASCII characters,
    is no level name, [NewFromConfig] returns the error of [parseLevel],
    which quotes the level as it was given, before anything is opened:
    the file system is as it was, whatever [Output] and [Daily] ask
    for. *)
Theorem NewFromConfig_unknown_level
  (env : Env) (conf : Config.t) (s : os.OS)
  (Hascii : is_ascii (Config.Level conf) = true)
  (Hlevel : snd (parseLevel (Config.Level conf)) <> None) :
  NewFromConfig env (ConfigPtr (Some conf)) s =
    (s, inr (Err (ErrNew ("unknown log level: " ++ Config.Level conf)))).
Proof.
  unfold NewFromConfig. revert Hlevel. unfold parseLevel.
  repeat (destruct (_ || _) || destruct (String.eqb _ _)); cbn; done.
Qed.

Lemma NewFromConfig_unknown_level_witness :
  NewFromConfig (calm "2024-01-15" 100)
    (ConfigPtr (Some (Config.mk "verbose" "json" "logs/app.log" true 3)))
    empty_os =
  (empty_os, inr (Err (ErrNew "unknown log level: verbose"))).
Proof.
  apply (NewFromConfig_unknown_level (calm "2024-01-15" 100)
           (Config.mk "verbose" "json" "logs/app.log" true 3) empty_os).
  - reflexivity.
  - discriminate.
Defined.

(** X3: a [Config] passed by value goes through the reflection branch,
    which reads [Level], [Format], [Output] and [Daily] and never
    [MaxFiles]: the call does what it does for a pointer to the same
    configuration with [MaxFiles] 0. *)
Theorem NewFromConfig_by_value_drops_MaxFiles
  (env : Env) (conf : Config.t) (s : os.OS) :
  NewFromConfig env (struct_of_Config conf) s =
  NewFromConfig env
    (ConfigPtr (Some (Config.mk (Config.Level conf) (Config.Format conf)
                                (Config.Output conf) (Config.Daily conf) 0)))
    s.
Proof. by destruct conf. Qed.

(** X4: when [output], in whatever case, is empty, [stdout] or [stderr],
    [NewSlogLogger] opens no file and makes no rotating writer, also when
    [daily] is set: it returns what it returns without [daily] and
    without a limit, and the file system is as it was. *)
Theorem NewSlogLogger_standard_streams
  (env : Env) (lvl : Level) (format output : string) (daily : bool)
  (maxFiles : list Z) (s : os.OS)
  (Hout : strings.ToLower output = "" \/ strings.ToLower output = "stdout" \/
          strings.ToLower output = "stderr") :
  NewSlogLogger env lvl format output daily maxFiles s =
    NewSlogLogger env lvl format output false [] s /\
  exists l, NewSlogLogger env lvl format output daily maxFiles s = (s, inl (l, None)) /\
            level l = lvl /\ writer (base l) <> Rotating.
Proof.
  unfold NewSlogLogger.
  destruct Hout as [-> | [-> | ->]]; cbn; (split; [done|]);
    eexists; (split; [done|]); done.
Qed.

Lemma NewSlogLogger_standard_streams_witness :
  exists l,
    NewSlogLogger (calm "2024-01-15" 100) LevelWarn "json" "StdErr" true [3]
                  empty_os = (empty_os, inl (l, None)) /\
    level l = LevelWarn /\ writer (base l) <> Rotating.
Proof.
  apply (NewSlogLogger_standard_streams (calm "2024-01-15" 100) LevelWarn
           "json" "StdErr" true [3] empty_os).
  right; right; reflexivity.
Defined.

Lemma NewSlogLogger_minLevel env lvl format output daily maxFiles s s' l drw :
  NewSlogLogger env lvl format output daily maxFiles s = (s', inl (l, drw)) ->
  minLevel (base l) = toSlog lvl /\ level l = lvl /\ ctx l = None.
Proof.
  unfold NewSlogLogger. intros H. repeat case_match; simplify_eq; done.
Qed.

(** X5: a logger made by [NewSlogLogger] at one of the four levels, and
    every logger got from it by [With] and [WithContext], enables one of
    the four levels exactly when that level is not below the logger's
    own, in the order debug, info, warn, error. *)
Theorem Enabled_from_level
  (env : Env) (lvl : Level) (format output : string) (daily : bool)
  (maxFiles : list Z) (s s' : os.OS) (l : SlogLogger)
  (drw : option DailyRotateWriter) (args : list value) (c c' : Context)
  (asked : Level)
  (Hnew : NewSlogLogger env lvl format output daily maxFiles s = (s', inl (l, drw)))
  (Hlvl : named_level lvl = true) (Hasked : named_level asked = true) :
  Enabled l c asked = (lvl <=? asked) /\
  Enabled (WithContext (With l args) c') c asked = (lvl <=? asked).
Proof.
  apply NewSlogLogger_minLevel in Hnew as (Hmin & _ & _).
  unfold Enabled, With, WithContext. cbn. rewrite Hmin.
  unfold named_level in *.
  repeat match goal with
         | H : _ || _ = true |- _ => apply orb_true_iff in H as [H|H]
         | H : (_ =? _) = true |- _ => apply Z.eqb_eq in H; subst
         end; done.
Qed.

Lemma Enabled_from_level_witness :
  let l := mkSlogLogger (mkLogger TextHandler Stdout slog.LevelWarn [])
                        None LevelWarn in
  Enabled l None LevelInfo = (LevelWarn <=? LevelInfo) /\
  Enabled (WithContext (With l [StringValue "request"]) (Some 1%nat)) None
          LevelInfo = (LevelWarn <=? LevelInfo).
Proof.
  intros l.
  apply (Enabled_from_level (calm "2024-01-15" 100) LevelWarn "text" "stdout"
           false [] empty_os empty_os l None [StringValue "request"] None
           (Some 1%nat) LevelInfo); reflexivity.
Defined.

(** ** What a Write does in every case *)

Lemma take_length_take {A} (l : list A) k : take (length (take k l)) l = take k l.
Proof.
  rewrite length_take. destruct (Nat.le_gt_cases k (length l)).
  - by rewrite Nat.min_l.
  - rewrite Nat.min_r by lia. by rewrite !take_ge by lia.
Qed.

(** X6: whatever [Write] returns, the count [n] is between 0 and the
    length of the buffer, a nil error comes with the full length, no
    name and no handle changes, the file of the writer has grown by
    exactly the first [n] bytes of the buffer, and no other file has
    changed. *)
Theorem Write_contract
  (drw : DailyRotateWriter) (s s' : os.OS) (p : list Byte.byte) (now : Z)
  (fault : option (nat * error)) (n : Z) (err : option error)
  (Hw : Write drw s p now fault = (s', (n, err))) :
  0 <= n <= Z.of_nat (length p) /\
  (err = None -> n = Z.of_nat (length p)) /\
  os.names s' = os.names s /\ os.fds s' = os.fds s /\
  (forall f, file drw = Some f ->
             os.content s' f = (os.content s f ++ take (Z.to_nat n) p)%list) /\
  (forall i, (forall f d, file drw = Some f -> os.fds s !! f = Some d ->
                          os.fd_ino d <> i) ->
             os.inodes s' !! i = os.inodes s !! i).
Proof.
  unfold Write in Hw. destruct (file drw) as [f|] eqn:Hf.
  2:{ injection Hw as <- <- <-. repeat split; try done; lia. }
  unfold os.Write in Hw. unfold os.content.
  destruct (os.fds s !! f) as [d|] eqn:Hd.
  2:{ injection Hw as <- <- <-. repeat split; try done; try lia.
      intros g [= <-]. rewrite Hd. done. }
  destruct (os.fd_open d).
  2:{ injection Hw as <- <- <-. repeat split; try done; try lia.
      intros g [= <-]. rewrite Hd, take_0. by rewrite app_nil_r. }
  destruct p as [|b p].
  { injection Hw as <- <- <-. repeat split; try done; try (cbn; lia).
    intros g [= <-]. rewrite Hd. by rewrite app_nil_r. }
  destruct fault as [[k e]|]; injection Hw as <- <- <-; cbn [os.names os.fds os.inodes].
  - pose proof (length_take_le (b :: p) k).
    assert (length (take k (b :: p)) <= length (b :: p))%nat
      by (rewrite length_take; lia).
    repeat split; try done; try lia.
    + intros g [= <-]. rewrite Hd. unfold os.content_ino at 1.
      cbn [os.inodes]. rewrite lookup_insert_eq. cbn [os.i_data].
      by rewrite Nat2Z.id, take_length_take.
    + intros i Hi. rewrite lookup_insert_ne; [done|]. by eapply Hi.
  - repeat split; try done; try lia.
    + intros g [= <-]. rewrite Hd. unfold os.content_ino at 1.
      cbn [os.inodes]. rewrite lookup_insert_eq. cbn [os.i_data].
      rewrite take_ge; [done|]. rewrite Nat2Z.id. done.
    + intros i Hi. rewrite lookup_insert_ne; [done|]. by eapply Hi.
Qed.

Lemma Write_contract_witness :
  let st := day1 in
  let r := Write (snd st) (fst st) hello 200 (Some (2%nat, Errno 28)) in
  0 <= fst (snd r) <= Z.of_nat (length hello) /\
  os.names (fst r) = os.names (fst st).
Proof.
  intros st r.
  destruct (Write_contract (snd st) (fst st) (fst r) hello 200
              (Some (2%nat, Errno 28)) (fst (snd r)) (snd (snd r))
              ltac:(vm_compute; reflexivity))
    as (Hn & _ & Hnames & _).
  split; [exact Hn | exact Hnames].
Defined.

(** ** Close *)

(** X7: [Close] closes the stop channel whatever closing the handle
    returns, keeps the handle in the field [file], and neither makes nor
    removes a name nor changes the content of a file. *)
Theorem Close_frame
  (drw drw' : DailyRotateWriter) (s s' : os.OS) (fault err : option error)
  (Hc : Close drw s fault = (s', drw', err)) :
  stopCh drw' = true /\ file drw' = file drw /\
  basePath drw' = basePath drw /\ lastDate drw' = lastDate drw /\
  maxFiles drw' = maxFiles drw /\
  os.names s' = os.names s /\ os.inodes s' = os.inodes s /\
  (forall f, file drw = Some f -> os.is_open s' f = false).
Proof.
  unfold Close in Hc. cbn in Hc.
  assert (Hstop : (if stopCh drw then stopCh drw else true) = true)
    by (by destruct (stopCh drw)).
  destruct (file drw) as [f|] eqn:Hf.
  - destruct (os.Close s f fault) as [s1 e1] eqn:Hcl.
    injection Hc as <- <- <-. cbn.
    pose proof (os_Close_names _ _ _ _ _ Hcl) as [Hn Hi].
    repeat split; try done.
    intros g [= <-]. destruct (os.is_open s f) eqn:Ho.
    + destruct (os_Close_open s f fault Ho) as (s2 & Heq & Hcl2 & _).
      rewrite Hcl in Heq. by injection Heq as <- _.
    + rewrite (os_Close_closed _ _ _ Ho) in Hcl. by injection Hcl as <- _.
  - injection Hc as <- <- <-. cbn. repeat split; done.
Qed.

Lemma Close_frame_witness :
  let r := Close (snd day1) (fst day1) (Some (Errno 5)) in
  stopCh (snd (fst r)) = true /\ os.names (fst (fst r)) = os.names (fst day1).
Proof.
  intros r.
  destruct (Close_frame (snd day1) (snd (fst r)) (fst day1) (fst (fst r))
              (Some (Errno 5)) (snd r) ltac:(vm_compute; reflexivity))
    as (Hs & _ & _ & _ & _ & Hn & _).
  split; [exact Hs | exact Hn].
Defined.

Lemma run_ticks_returned envs s drw :
  stopCh drw = true ->
  Forall (fun env => late_tick env = false) envs ->
  run (OpTick <$> envs) (s, drw) = (s, drw, (fun _ => RetTick) <$> envs).
Proof.
  intros Hs. induction 1 as [|env envs Hlate _ IH]; [done|].
  cbn [fmap list_fmap run]. cbn [step]. unfold autoRotate. rewrite Hs, Hlate.
  cbn [negb andb].
  change (list_fmap _ _ OpTick envs) with (OpTick <$> envs).
  by rewrite IH.
Qed.

Lemma run_ticks_closed f envs s drw :
  holds_closed f s drw ->
  run (OpTick <$> envs) (s, drw) = (s, drw, (fun _ => RetTick) <$> envs).
Proof.
  intros Hh. induction envs as [|env envs IH]; [done|].
  cbn [fmap list_fmap run]. cbn [step]. unfold autoRotate.
  change (list_fmap _ _ OpTick envs) with (OpTick <$> envs).
  destruct (stopCh drw && negb (late_tick env)); [by rewrite IH|].
  destruct (rotateIfNeeded_closed_result f env s drw Hh) as (r & -> & Hr).
  destruct r; [by rewrite IH..|]. by destruct (Hr msg).
Qed.

(** X8: after [Close], whatever it returned, a tick at which the
    [select] of the goroutine takes the stop channel changes nothing.
    When the writer holds a file handle, no tick changes anything, also
    not one that the [select] still takes, in whatever environment:
    writer and file system stay as they are and the goroutine does not
    panic. *)
Theorem Close_stops_autoRotate
  (drw drw' : DailyRotateWriter) (s s' : os.OS) (fault err : option error)
  (envs : list Env)
  (Hc : Close drw s fault = (s', drw', err)) :
  (Forall (fun env => late_tick env = false) envs ->
   run (OpTick <$> envs) (s', drw') = (s', drw', (fun _ => RetTick) <$> envs)) /\
  (file drw <> None ->
   run (OpTick <$> envs) (s', drw') = (s', drw', (fun _ => RetTick) <$> envs)).
Proof.
  split.
  - apply run_ticks_returned. unfold Close in Hc. cbn in Hc.
    repeat case_match; simplify_eq; cbn; by destruct (stopCh drw).
  - intros Hfile. destruct (file drw) as [f|] eqn:Hf; [|done].
    apply (run_ticks_closed f). unfold Close in Hc. cbn in Hc. rewrite Hf in Hc.
    destruct (os.Close s f fault) as [s1 e1] eqn:Hos. injection Hc as <- <- <-.
    split; [done|]. destruct (os.is_open s f) eqn:Ho.
    + destruct (os_Close_open s f fault Ho) as (s2 & Hc2 & Hcl & _). congruence.
    + rewrite (os_Close_closed _ _ _ Ho) in Hos. congruence.
Qed.

Lemma Close_stops_autoRotate_witness :
  let r := Close (snd day1) (fst day1) None in
  run (OpTick <$> [late "2024-01-16" 300; calm "2024-01-17" 400])
      (fst (fst r), snd (fst r)) =
  (fst (fst r), snd (fst r), [RetTick; RetTick]).
Proof.
  intros r.
  apply (Close_stops_autoRotate (snd day1) (snd (fst r)) (fst day1)
           (fst (fst r)) None (snd r)
           [late "2024-01-16" 300; calm "2024-01-17" 400]
           ltac:(vm_compute; reflexivity)).
  vm_compute. discriminate.
Defined.

(** ** What no history of a writer changes *)

Lemma rotateOpen_fields env drw s s' drw' r :
  rotateOpen env drw s = (s', drw', r) ->
  basePath drw' = basePath drw /\ maxFiles drw' = maxFiles drw /\
  stopCh drw' = stopCh drw.
Proof. unfold rotateOpen. intros H. repeat case_match; simplify_eq; done. Qed.

Lemma rotateIfNeeded_frame env drw s s' drw' r :
  rotateIfNeeded env drw s = (s', drw', r) ->
  basePath drw' = basePath drw /\ maxFiles drw' = maxFiles drw /\
  stopCh drw' = stopCh drw /\ os.inodes s ⊆ os.inodes s'.
Proof.
  unfold rotateIfNeeded.
  destruct (not_nil (file drw) && String.eqb (lastDate drw) (now_date env)).
  { by intros [= <- <- _]. }
  destruct (rotateOpen env drw s) as [[s1 drw1] r1] eqn:Hro.
  pose proof (rotateOpen_names _ _ _ _ _ _ Hro) as [_ Hi].
  pose proof (rotateOpen_fields _ _ _ _ _ _ Hro) as (Hb & Hm & Hs).
  destruct r1; try by intros [= <- <- _].
  destruct (0 <? maxFiles drw1); [|by intros [= <- <- _]].
  destruct (cleanOldLogFiles env drw1 s1) as [s2 r2] eqn:Hcl.
  apply cleanOldLogFiles_frame in Hcl as [_ Hi2].
  destruct r2; intros [= <- <- _]; by rewrite Hi2.
Qed.

Lemma kept_subseteq m m' : m ⊆ m' -> kept m m'.
Proof. intros Hsub i n Hi. exists n. split; [by eapply lookup_weaken|done]. Qed.

Lemma kept_trans m1 m2 m3 : kept m1 m2 -> kept m2 m3 -> kept m1 m3.
Proof.
  intros H12 H23 i n Hi. destruct (H12 i n Hi) as (n2 & Hi2 & Hp2).
  destruct (H23 i n2 Hi2) as (n3 & Hi3 & Hp3).
  exists n3. split; [done|]. by etrans.
Qed.

Lemma Write_kept drw s p now fault s' r :
  Write drw s p now fault = (s', r) -> kept (os.inodes s) (os.inodes s').
Proof.
  unfold Write, os.Write. intros H.
  repeat case_match; simplify_eq; try by apply kept_subseteq.
  all: intros i ino Hi; cbn;
    match goal with
    | |- context [<[?j := _]> _] => destruct (decide (i = j)) as [->|Hne]
    end;
    [ rewrite lookup_insert_eq; eexists; split; [done|];
      unfold os.content_ino; rewrite Hi; cbn; by eexists
    | rewrite lookup_insert_ne by done; eexists; split; [done|done] ].
Qed.

Lemma step_frame o s drw s' drw' r :
  step o (s, drw) = (s', drw', r) ->
  basePath drw' = basePath drw /\ maxFiles drw' = maxFiles drw /\
  (stopCh drw = true -> stopCh drw' = true) /\
  kept (os.inodes s) (os.inodes s').
Proof.
  destruct o as [p now fault|fault|env|env]; cbn.
  - destruct (Write drw s p now fault) as [s1 [n err]] eqn:Hw.
    intros [= <- <- _]. repeat split; try done. by eapply Write_kept.
  - unfold Close. cbn.
    destruct (file drw) as [f|].
    + destruct (os.Close s f fault) as [s1 e1] eqn:Hc.
      apply os_Close_names in Hc as [_ Hi]. intros [= <- <- _]. cbn.
      repeat split; try done; [by destruct (stopCh drw)|].
      rewrite Hi. by apply kept_subseteq.
    + intros [= <- <- _]. cbn. repeat split; try done; [by destruct (stopCh drw)|].
      by apply kept_subseteq.
  - destruct (rotateIfNeeded env drw s) as [[s1 drw1] r1] eqn:Hr.
    apply rotateIfNeeded_frame in Hr as (Hb & Hm & Hs & Hi).
    intros [= <- <- _]. repeat split; try done; [congruence|].
    by apply kept_subseteq.
  - unfold autoRotate. destruct (stopCh drw && negb (late_tick env)).
    { intros [= <- <- _]. repeat split; try done. by apply kept_subseteq. }
    destruct (rotateIfNeeded env drw s) as [[s1 drw1] r1] eqn:Hr.
    apply rotateIfNeeded_frame in Hr as (Hb & Hm & Hs & Hi).
    destruct r1; intros [= <- <- _]; (repeat split; try done; [congruence|]);
      by apply kept_subseteq.
Qed.

Lemma run_frame ops s drw s' drw' rs :
  run ops (s, drw) = (s', drw', rs) ->
  basePath drw' = basePath drw /\ maxFiles drw' = maxFiles drw /\
  (stopCh drw = true -> stopCh drw' = true) /\
  kept (os.inodes s) (os.inodes s').
Proof.
  revert s drw rs. induction ops as [|o ops IH]; intros s drw rs; cbn [run].
  - intros [= <- <- _]. repeat split; try done. by apply kept_subseteq.
  - destruct (step o (s, drw)) as [[s1 drw1] r1] eqn:Hst.
    destruct (run ops (s1, drw1)) as [[s2 drw2] rs2] eqn:Hrun.
    destruct r1; intros [= <- <- _];
      apply step_frame in Hst as (Hb1 & Hm1 & Hs1 & Hk1);
      first [ exact (conj Hb1 (conj Hm1 (conj Hs1 Hk1)))
            | apply IH in Hrun as (Hb2 & Hm2 & Hs2 & Hk2);
              repeat split; try congruence; [auto|]; by eapply kept_trans ].
Qed.

(** X9: along every history of writes, closes, rotation checks and
    ticks, the writer keeps its base path and its limit, and its stop
    channel, once closed, stays closed. *)
Theorem run_keeps_configuration
  (ops : list op) (s s' : os.OS) (drw drw' : DailyRotateWriter) (rs : list ret)
  (Hrun : run ops (s, drw) = (s', drw', rs)) :
  basePath drw' = basePath drw /\ maxFiles drw' = maxFiles drw /\
  (stopCh drw = true -> stopCh drw' = true).
Proof. apply run_frame in Hrun as (? & ? & ? & _). done. Qed.

Lemma run_keeps_configuration_witness :
  let r := run [OpWrite hello 200 None; OpRotate (calm "2024-01-16" 300);
                OpClose None; OpTick (calm "2024-01-17" 400)] day1_keep2 in
  basePath (snd (fst r)) = "logs/app.log" /\ maxFiles (snd (fst r)) = 2.
Proof.
  intros r.
  destruct (run_keeps_configuration
              [OpWrite hello 200 None; OpRotate (calm "2024-01-16" 300);
               OpClose None; OpTick (calm "2024-01-17" 400)]
              (fst day1_keep2) (fst (fst r)) (snd day1_keep2) (snd (fst r))
              (snd r) ltac:(vm_compute; reflexivity)) as (Hb & Hm & _).
  split; [exact Hb | exact Hm].
Defined.

Lemma run_names ops s drw s' drw' rs :
  maxFiles drw <= 0 ->
  run ops (s, drw) = (s', drw', rs) -> os.names s ⊆ os.names s'.
Proof.
  revert s drw rs. induction ops as [|o ops IH]; intros s drw rs Hm; cbn [run].
  - by intros [= <- _ _].
  - destruct (step o (s, drw)) as [[s1 drw1] r1] eqn:Hs.
    apply step_names in Hs as [Hn1 Hm1]; [|done].
    destruct (run ops (s1, drw1)) as [[s2 drw2] rs2] eqn:Hrun.
    destruct r1; intros [= <- <- _];
      first [exact Hn1 | etrans; [exact Hn1|]; by eapply IH].
Qed.

(** X10: a writer without a limit loses no data: along every history of
    writes, closes, rotation checks and ticks, every name that names a
    file keeps naming that file, and the content of the file starts
    with the bytes it held before. *)
Theorem run_keeps_written_bytes
  (ops : list op) (s s' : os.OS) (drw drw' : DailyRotateWriter) (rs : list ret)
  (key : string * string) (i : nat) (n : os.inode)
  (Hlimit : maxFiles drw <= 0)
  (Hrun : run ops (s, drw) = (s', drw', rs))
  (Hname : os.names s !! key = Some (os.NFile i))
  (Hfile : os.inodes s !! i = Some n) :
  os.names s' !! key = Some (os.NFile i) /\
  exists n', os.inodes s' !! i = Some n' /\
             os.i_data n `prefix_of` os.i_data n'.
Proof.
  split.
  - eapply lookup_weaken; [exact Hname|]. by eapply run_names.
  - apply run_frame in Hrun as (_ & _ & _ & Hk). by apply Hk.
Qed.

Lemma run_keeps_written_bytes_witness :
  let st := fst (run [OpWrite hello 200 None] day1) in
  let r := run [OpRotate (calm "2024-01-16" 300); OpWrite hello 400 None;
                OpClose None] st in
  os.names (fst (fst r)) !! ("logs", "app-2024-01-15.log") = Some (os.NFile 1) /\
  exists n', os.inodes (fst (fst r)) !! 1%nat = Some n' /\
             hello `prefix_of` os.i_data n'.
Proof.
  intros st r.
  apply (run_keeps_written_bytes
           [OpRotate (calm "2024-01-16" 300); OpWrite hello 400 None;
            OpClose None]
           (fst st) (fst (fst r)) (snd st) (snd (fst r)) (snd r)
           ("logs", "app-2024-01-15.log") 1%nat (os.Inode hello 200));
    vm_compute; first [reflexivity | discriminate].
Defined.

(** ** Handles during a rotation *)

Lemma os_OpenFile_closed s path fl now fault s' r g i :
  os.OpenFile s path fl now fault = (s', r) ->
  os.fds s !! g = Some (os.Fd i false) -> os.fds s' !! g = Some (os.Fd i false).
Proof.
  unfold os.OpenFile, os.open_handle. intros H Hg.
  assert (Hne : g <> fresh (dom (os.fds s))).
  { intros Heq. rewrite Heq in Hg. apply elem_of_dom_2 in Hg.
    by apply is_fresh in Hg. }
  repeat case_match; simplify_eq; cbn; try done; by rewrite lookup_insert_ne.
Qed.

Lemma os_Close_closed_kept s f fault s' err g i :
  os.Close s f fault = (s', err) ->
  os.fds s !! g = Some (os.Fd i false) -> os.fds s' !! g = Some (os.Fd i false).
Proof.
  unfold os.Close. intros H Hg.
  repeat case_match; simplify_eq; cbn; try done.
  destruct (decide (g = f)) as [->|Hne]; [|by rewrite lookup_insert_ne].
  match goal with
  | H1 : _ !! f = Some ?d, H2 : os.fd_open ?d = true |- _ =>
      assert (Heq : Some d = Some (os.Fd i false))
        by (etrans; [symmetry; exact H1 | exact Hg]);
      injection Heq as Heq; rewrite Heq in H2; discriminate H2
  end.
Qed.

Lemma os_Close_open_fd s f fault i :
  os.fds s !! f = Some (os.Fd i true) ->
  os.Close s f fault =
    (os.mkOS (os.names s) (os.inodes s) (<[f := os.Fd i false]> (os.fds s)), fault).
Proof. unfold os.Close. by intros ->. Qed.

Lemma rotateOpen_closed env drw s s' drw' r g i :
  rotateOpen env drw s = (s', drw', r) ->
  os.fds s !! g = Some (os.Fd i false) -> os.fds s' !! g = Some (os.Fd i false).
Proof.
  unfold rotateOpen. intros H Hg.
  destruct (match file drw with
            | Some f =>
                match os.Close s f (flt_close env) with
                | (s', Some err) => (s', drw, Some err)
                | (s', None) => (s', with_file drw None, None)
                end
            | None => (s, drw, None)
            end) as [[s0 drw0] closed] eqn:Hclose.
  assert (Hg0 : os.fds s0 !! g = Some (os.Fd i false)).
  { repeat case_match; simplify_eq; try done; by eapply os_Close_closed_kept. }
  clear Hclose Hg. destruct closed; [by simplify_eq|].
  destruct (os.MkdirAll s0 _ _ _) as [s1 [e1|]] eqn:Hmk;
    apply os_MkdirAll_names in Hmk as (_ & _ & Hf1); rewrite <- Hf1 in Hg0;
    [by simplify_eq|].
  destruct (os.OpenFile s1 _ O_probe _ _) as [s2 [f2|e2]] eqn:Hprobe;
    eapply os_OpenFile_closed in Hprobe; try exact Hg0; [|by simplify_eq].
  destruct (os.Close s2 f2 None) as [s2' e2'] eqn:Hc2.
  eapply os_Close_closed_kept in Hc2; [|exact Hprobe]. cbn [fst] in H.
  destruct (os.Remove s2' _ (flt_unprobe env)) as [s3 e3] eqn:Hrm.
  apply os_Remove_frame in Hrm as [Hf3 _]. rewrite <- Hf3 in Hc2. cbn [fst] in H.
  destruct (os.Stat s3 _ _) as [info|].
  - destruct (os.OpenFile s3 _ O_check _ _) as [s4 [f4|e4]] eqn:Hchk;
      eapply os_OpenFile_closed in Hchk; try exact Hc2; [|by simplify_eq].
    destruct (os.Close s4 f4 None) as [s5 e5] eqn:Hc5.
    eapply os_Close_closed_kept in Hc5; [|exact Hchk]. cbn [fst] in H.
    destruct (os.OpenFile s5 _ O_log _ _) as [s6 [f6|e6]] eqn:Hlog;
      eapply os_OpenFile_closed in Hlog; try exact Hc5; by simplify_eq.
  - destruct (os.OpenFile s3 _ O_log _ _) as [s6 [f6|e6]] eqn:Hlog;
      eapply os_OpenFile_closed in Hlog; try exact Hc2; by simplify_eq.
Qed.

Lemma rotateOpen_after_close env drw s f s0 :
  file drw = Some f -> os.Close s f (flt_close env) = (s0, None) ->
  rotateOpen env drw s = rotateOpen env (with_file drw None) s0.
Proof. intros Hf Hc. unfold rotateOpen. rewrite Hf, Hc. reflexivity. Qed.

Lemma rotateOpen_nil_failed env drw s s' drw' r :
  file drw = None -> rotateOpen env drw s = (s', drw', r) -> r <> Nil ->
  drw' = drw.
Proof.
  unfold rotateOpen. intros Hf H Hr. rewrite Hf in H.
  repeat case_match; simplify_eq; done.
Qed.

(** What [rotateIfNeeded] returns after lines 193 to 244 returned [r1]
    and left [drw1]. *)
Lemma rotateIfNeeded_unfold env drw s :
  not_nil (file drw) && String.eqb (lastDate drw) (now_date env) = false ->
  forall s1 drw1 r1, rotateOpen env drw s = (s1, drw1, r1) ->
  (r1 <> Nil /\ rotateIfNeeded env drw s = (s1, drw1, r1)) \/
  (r1 = Nil /\ maxFiles drw <= 0 /\ rotateIfNeeded env drw s = (s1, drw1, Nil)) \/
  (r1 = Nil /\ 0 < maxFiles drw /\
   exists s2 r2, cleanOldLogFiles env drw1 s1 = (s2, r2) /\
     rotateIfNeeded env drw s =
       (s2, drw1, match r2 with
                  | Nil => Nil
                  | Err err => Err (ErrWrap "failed to clean old log files" err)
                  | Panic msg => Panic msg
                  end)).
Proof.
  intros Hc s1 drw1 r1 Hro. unfold rotateIfNeeded. rewrite Hc, Hro.
  pose proof (rotateOpen_fields _ _ _ _ _ _ Hro) as (_ & Hm & _).
  destruct r1; [|by left..]. right. rewrite Hm.
  destruct (0 <? maxFiles drw) eqn:Hlt.
  - right. apply Z.ltb_lt in Hlt. split; [done|]. split; [done|].
    destruct (cleanOldLogFiles env drw1 s1) as [s2 r2]. exists s2, r2.
    split; [done|]. by destruct r2.
  - left. apply Z.ltb_ge in Hlt. done.
Qed.

(** What [NewDailyRotateWriter] returns. *)
Lemma NewDailyRotateWriter_cases env path limit s :
  match NewDailyRotateWriter env path limit s with
  | (s', inl drw) =>
      basePath drw = path /\ lastDate drw = now_date env /\
      stopCh drw = false /\
      maxFiles drw = match limit with m :: _ => m | [] => 0 end /\
      exists f i, file drw = Some f /\ os.fds s' !! f = Some (os.Fd i true) /\
        (maxFiles drw <= 0 ->
         os.names s' !! os.resolve (newFilename path (now_date env))
           = Some (os.NFile i))
  | (s', inr r) => r <> Nil
  end.
Proof.
  unfold NewDailyRotateWriter.
  set (limit0 := match limit with m :: _ => m | [] => 0 end).
  set (drw0 := mkWriter path None "" false limit0).
  destruct (rotateOpen env drw0 s) as [[s1 drw1] r1] eqn:Hro.
  destruct (rotateIfNeeded_unfold env drw0 s eq_refl _ _ _ Hro)
    as [[Hr ->] | [(-> & Hm & ->) | (-> & Hm & s2 & r2 & Hcl & ->)]].
  - by destruct r1.
  - apply rotateOpen_Nil in Hro as (f & i & -> & Hfd & Hn). cbn.
    repeat split; try done. eauto 10.
  - apply rotateOpen_Nil in Hro as (f & i & -> & Hfd & Hn).
    apply cleanOldLogFiles_frame in Hcl as [Hf2 _].
    destruct r2; try done. cbn.
    repeat split; try done. exists f, i. rewrite Hf2.
    split; [done|]. split; [done|]. cbn in Hm. lia.
Qed.

(** X11: what [NewDailyRotateWriter] returns is either a writer, with
    the base path and the limit given (0 when none is given), an open
    stop channel, today's date and an open handle, or a failure that is
    not nil; and the handle of a writer without a limit is on the file
    named for today. *)
Theorem NewDailyRotateWriter_spec
  (env : Env) (path : string) (limit : list Z) (s s' : os.OS)
  (res : DailyRotateWriter + result)
  (Hnew : NewDailyRotateWriter env path limit s = (s', res)) :
  match res with
  | inl drw =>
      basePath drw = path /\ lastDate drw = now_date env /\
      stopCh drw = false /\
      maxFiles drw = match limit with m :: _ => m | [] => 0 end /\
      exists f i, file drw = Some f /\ os.fds s' !! f = Some (os.Fd i true) /\
        (maxFiles drw <= 0 ->
         os.names s' !! os.resolve (newFilename path (now_date env))
           = Some (os.NFile i))
  | inr r => r <> Nil
  end.
Proof.
  pose proof (NewDailyRotateWriter_cases env path limit s) as H.
  by rewrite Hnew in H.
Qed.

Lemma NewDailyRotateWriter_spec_witness :
  basePath (snd day1) = "logs/app.log" /\ maxFiles (snd day1) = 0 /\
  exists f i, file (snd day1) = Some f /\
              os.fds (fst day1) !! f = Some (os.Fd i true).
Proof.
  destruct (NewDailyRotateWriter_spec (calm "2024-01-15" 100) "logs/app.log" []
              empty_os (fst day1) (inl (snd day1))
              ltac:(vm_compute; reflexivity))
    as (Hb & _ & _ & Hm & f & i & Hf & Hfd & _).
  split; [exact Hb|]. split; [exact Hm|]. exists f, i. split; [exact Hf | exact Hfd].
Defined.

(** X12: a rotation check that returns nil on a writer whose open file
    is of another day has closed that handle, which stays on its file,
    and has given the writer a different handle, open, under today's
    date. *)
Theorem rotateIfNeeded_new_day
  (env : Env) (drw drw' : DailyRotateWriter) (s s' : os.OS) (f : os.File)
  (i : nat)
  (Hfile : file drw = Some f)
  (Hopen : os.fds s !! f = Some (os.Fd i true))
  (Hday : lastDate drw <> now_date env)
  (Hnil : rotateIfNeeded env drw s = (s', drw', Nil)) :
  os.fds s' !! f = Some (os.Fd i false) /\
  lastDate drw' = now_date env /\
  exists f' i', f' <> f /\ file drw' = Some f' /\
                os.fds s' !! f' = Some (os.Fd i' true).
Proof.
  assert (Hc : not_nil (file drw) && String.eqb (lastDate drw) (now_date env)
               = false).
  { apply andb_false_iff. right. by apply String.eqb_neq. }
  destruct (rotateOpen env drw s) as [[s1 drw1] r1] eqn:Hro.
  assert (Hro' := Hro).
  pose proof (os_Close_open_fd s f (flt_close env) i Hopen) as Hclose.
  assert (Hs1 : r1 = Nil -> os.fds s1 !! f = Some (os.Fd i false)).
  { intros ->. destruct (flt_close env) as [e|] eqn:Hflt.
    - unfold rotateOpen in Hro. rewrite Hfile, Hflt, Hclose in Hro. simplify_eq.
    - rewrite (rotateOpen_after_close _ _ _ _ _ Hfile) in Hro
        by (rewrite Hflt; exact Hclose).
      eapply rotateOpen_closed in Hro; [done|]. cbn. apply lookup_insert_eq. }
  destruct (rotateIfNeeded_unfold env drw s Hc _ _ _ Hro')
    as [[Hr H] | [(-> & Hm & H) | (-> & Hm & s2 & r2 & Hcl & H)]];
    rewrite H in Hnil.
  - by simplify_eq.
  - simplify_eq. apply rotateOpen_Nil in Hro' as (f' & i' & -> & Hfd & _).
    specialize (Hs1 eq_refl). split; [done|]. split; [done|].
    exists f', i'. split; [congruence|done].
  - destruct r2; simplify_eq.
    apply rotateOpen_Nil in Hro' as (f' & i' & -> & Hfd & _).
    apply cleanOldLogFiles_frame in Hcl as [Hf2 _]. rewrite Hf2.
    specialize (Hs1 eq_refl). split; [done|]. split; [done|].
    exists f', i'. split; [congruence|done].
Qed.

Lemma rotateIfNeeded_new_day_witness :
  let r := rotateIfNeeded (calm "2024-01-16" 300) (snd day1) (fst day1) in
  os.fds (fst (fst r)) !! 1%nat = Some (os.Fd 1 false) /\
  lastDate (snd (fst r)) = "2024-01-16".
Proof.
  intros r.
  destruct (rotateIfNeeded_new_day (calm "2024-01-16" 300) (snd day1)
              (snd (fst r)) (fst day1) (fst (fst r)) 1%nat 1%nat
              ltac:(vm_compute; reflexivity) ltac:(vm_compute; reflexivity)
              ltac:(vm_compute; discriminate) ltac:(vm_compute; reflexivity))
    as (Hf & Hd & _).
  split; [exact Hf | exact Hd].
Defined.

(** X13: when closing the open file went through and the check then
    fails before the file of the day is open, the writer is left
    without a file: the old handle is closed, the field [file] is nil,
    and every [Write] returns 0 and the error that the log file is not
    initialized, without touching the system. *)
Theorem rotateIfNeeded_failure_leaves_no_file
  (env : Env) (drw drw' : DailyRotateWriter) (s s' : os.OS) (f : os.File)
  (i : nat) (e : error)
  (Hfile : file drw = Some f)
  (Hopen : os.fds s !! f = Some (os.Fd i true))
  (Hday : lastDate drw <> now_date env)
  (Hclose : flt_close env = None)
  (Herr : rotateIfNeeded env drw s = (s', drw', Err e))
  (Hopened : forall cause, e <> ErrWrap "failed to clean old log files" cause) :
  file drw' = None /\ os.fds s' !! f = Some (os.Fd i false) /\
  forall p now fault,
    Write drw' s' p now fault = (s', (0, Some (ErrNew "log file not initialized"))).
Proof.
  assert (Hc : not_nil (file drw) && String.eqb (lastDate drw) (now_date env)
               = false).
  { apply andb_false_iff. right. by apply String.eqb_neq. }
  destruct (rotateOpen env drw s) as [[s1 drw1] r1] eqn:Hro.
  destruct (rotateIfNeeded_unfold env drw s Hc _ _ _ Hro)
    as [[Hr H] | [(-> & Hm & H) | (-> & Hm & s2 & r2 & Hcl & H)]];
    rewrite H in Herr.
  - simplify_eq.
    pose proof (os_Close_open_fd s f (flt_close env) i Hopen) as Hcl.
    rewrite Hclose in Hcl at 2.
    rewrite (rotateOpen_after_close _ _ _ _ _ Hfile Hcl) in Hro.
    pose proof (rotateOpen_closed _ _ _ _ _ _ f i Hro) as Hfd.
    apply rotateOpen_nil_failed in Hro; [|done|done]. subst drw'.
    split; [done|]. split; [apply Hfd, lookup_insert_eq|]. done.
  - simplify_eq.
  - destruct r2; simplify_eq. by destruct (Hopened e0).
Qed.

Lemma rotateIfNeeded_failure_leaves_no_file_witness :
  let r := rotateIfNeeded (unwritable "2024-01-16" 300) (snd day1) (fst day1) in
  file (snd (fst r)) = None /\
  Write (snd (fst r)) (fst (fst r)) hello 400 None =
    (fst (fst r), (0, Some (ErrNew "log file not initialized"))).
Proof.
  intros r.
  destruct (rotateIfNeeded_failure_leaves_no_file (unwritable "2024-01-16" 300)
              (snd day1) (snd (fst r)) (fst day1) (fst (fst r)) 1%nat 1%nat
              (ErrWrap "directory is not writable" (Errno 13))
              ltac:(vm_compute; reflexivity) ltac:(vm_compute; reflexivity)
              ltac:(vm_compute; discriminate) ltac:(reflexivity)
              ltac:(vm_compute; reflexivity) ltac:(intros cause; discriminate))
    as (Hf & _ & Hw).
  split; [exact Hf | apply Hw].
Defined.

(** ** How a rotation check can end *)

Lemma removeOldest_in_range env l n i s s' msg :
  (i + n <= length l)%nat -> removeOldest env l n i s <> (s', Panic msg).
Proof.
  revert i s. induction n as [|n IH]; intros i s Hlen; cbn; [done|].
  destruct (l !! i) as [path|] eqn:Hl.
  2:{ apply lookup_ge_None in Hl. lia. }
  destruct (os.Remove s path (flt_remove env path)) as [s1 [err|]]; [done|].
  apply IH. lia.
Qed.

Lemma cleanOldLogFiles_Panic env drw s s' msg :
  0 <= maxFiles drw ->
  cleanOldLogFiles env drw s = (s', Panic msg) ->
  msg = "nil pointer dereference".
Proof.
  intros Hm. unfold cleanOldLogFiles. intros H.
  destruct (os.ReadDir s _ _) as [files|err]; [|done].
  destruct (_ <=? _); [done|].
  destruct (sortByModTime env s _) as [sorted|] eqn:Hsort; [|by simplify_eq].
  exfalso. eapply removeOldest_in_range; [|exact H]. lia.
Qed.

(** X14: a rotation check returns nil, or one of six errors, each
    wrapping its cause: five for the steps up to opening the file of the
    day and one for the pruner; it panics only when the writer has a
    limit above zero, and then only by the nil [FileInfo] of a failed
    [os.Stat] in the sort, never by an index out of range. *)
Theorem rotateIfNeeded_result
  (env : Env) (drw drw' : DailyRotateWriter) (s s' : os.OS) (r : result)
  (Hr : rotateIfNeeded env drw s = (s', drw', r)) :
  match r with
  | Nil => True
  | Err e =>
      open_failure e \/
      exists cause, e = ErrWrap "failed to clean old log files" cause
  | Panic msg => 0 < maxFiles drw /\ msg = "nil pointer dereference"
  end.
Proof.
  destruct (not_nil (file drw) && String.eqb (lastDate drw) (now_date env))
    eqn:Hc.
  { unfold rotateIfNeeded in Hr. rewrite Hc in Hr. by simplify_eq. }
  destruct (rotateOpen env drw s) as [[s1 drw1] r1] eqn:Hro.
  pose proof (rotateOpen_result _ _ _ _ _ _ Hro) as Hres.
  pose proof (rotateOpen_fields _ _ _ _ _ _ Hro) as (_ & Hmax & _).
  destruct (rotateIfNeeded_unfold env drw s Hc _ _ _ Hro)
    as [[Hne H] | [(-> & Hm & H) | (-> & Hm & s2 & r2 & Hcl & H)]];
    rewrite H in Hr; simplify_eq.
  - destruct r; try done. by left.
  - done.
  - destruct r2; try done; [eauto|].
    split; [done|]. eapply cleanOldLogFiles_Panic; [|exact Hcl]. lia.
Qed.

Lemma rotateIfNeeded_result_witness :
  open_failure (ErrWrap "directory is not writable" (Errno 13)) \/
  exists cause,
    ErrWrap "directory is not writable" (Errno 13) =
    ErrWrap "failed to clean old log files" cause.
Proof.
  pose (r := rotateIfNeeded (unwritable "2024-01-16" 300) (snd day1) (fst day1)).
  apply (rotateIfNeeded_result (unwritable "2024-01-16" 300) (snd day1)
           (snd (fst r)) (fst day1) (fst (fst r))
           (Err (ErrWrap "directory is not writable" (Errno 13)))).
  vm_compute. reflexivity.
Defined.

(** ** A removal that fails *)

Lemma os_Remove_failed s path fault s' err :
  os.Remove s path fault = (s', Some err) -> s' = s.
Proof. unfold os.Remove. intros H. repeat case_match; simplify_eq; done. Qed.

Lemma os_Remove_done s path fault s' :
  os.Remove s path fault = (s', None) ->
  os.names s' = delete (os.resolve path) (os.names s).
Proof. unfold os.Remove. intros H. repeat case_match; simplify_eq; done. Qed.

Lemma removeOldest_Err env l n i s s' e :
  removeOldest env l n i s = (s', Err e) ->
  exists k p cause,
    (k < n)%nat /\ l !! (i + k)%nat = Some p /\
    e = ErrText ("failed to remove old log file " ++ p) cause /\
    os.names s' = remove_all (take k (drop i l)) (os.names s).
Proof.
  revert i s. induction n as [|n IH]; intros i s; cbn; [done|].
  destruct (l !! i) as [path|] eqn:Hl; [|done].
  destruct (os.Remove s path (flt_remove env path)) as [s1 [err|]] eqn:Hr.
  - intros [= <- <-]. apply os_Remove_failed in Hr as ->.
    exists 0%nat, path, err. rewrite Nat.add_0_r.
    split; [lia|]. split; [done|]. split; [done|]. by rewrite take_0.
  - intros H. apply IH in H as (k & p & cause & Hk & Hp & He & Hn).
    apply os_Remove_done in Hr.
    exists (S k), p, cause. split; [lia|].
    split; [by rewrite <- Hp; f_equal; lia|]. split; [done|].
    rewrite (drop_S _ _ _ Hl). cbn. by rewrite <- Hr.
Qed.

(** X15: when the pruner returns an error, either the directory could
    not be read and nothing is changed, or removing one of the files
    failed.  Then there is an order of the files the pruner lists in
    which none was last modified before one that stands earlier, such
    that the error names one of the files to remove, the files before it
    in that order are removed, no other name is, and no handle has
    changed. *)
Theorem cleanOldLogFiles_failure
  (env : Env) (drw : DailyRotateWriter) (s s' : os.OS) (e : error)
  (Hclean : cleanOldLogFiles env drw s = (s', Err e)) :
  (s' = s /\ exists cause, e = ErrText "failed to read log directory" cause) \/
  exists sorted k p cause,
    sorted ≡ₚ logFiles (basePath drw)
                (os.entries s (filepath.Dir (basePath drw))) /\
    StronglySorted (not_less (older env s)) sorted /\
    sorted !! k = Some p /\
    Z.of_nat k < Z.of_nat (length sorted) - maxFiles drw /\
    e = ErrText ("failed to remove old log file " ++ p) cause /\
    os.names s' = remove_all (take k sorted) (os.names s) /\
    os.fds s' = os.fds s.
Proof.
  unfold cleanOldLogFiles in Hclean.
  destruct (os.ReadDir s _ _) as [files|err] eqn:Hrd.
  2:{ left. simplify_eq. eauto. }
  assert (files = os.entries s (filepath.Dir (basePath drw))) as ->.
  { unfold os.ReadDir in Hrd. repeat case_match; simplify_eq; done. }
  destruct (_ <=? _); [done|].
  destruct (sortByModTime env s _) as [sorted|] eqn:Hsort; [|done].
  right. pose proof (removeOldest_frame _ _ _ _ _ _ _ Hclean) as [Hfd _].
  apply removeOldest_Err in Hclean as (k & p & cause & Hk & Hp & He & Hn).
  exists sorted, k, p, cause. rewrite drop_0 in Hn. cbn in Hp.
  split; [by eapply sortByModTime_Permutation|].
  split; [by eapply sortByModTime_sorted|].
  repeat split; try done. lia.
Qed.

Lemma cleanOldLogFiles_failure_witness :
  let drw := mkWriter "logs/app.log" None "" false 1 in
  let env := unremovable "2024-01-15" 100 "logs/app-2024-01-01.log" in
  let s' := fst (cleanOldLogFiles env drw old_logs) in
  exists sorted k p cause,
    sorted ≡ₚ logFiles "logs/app.log" (os.entries old_logs "logs") /\
    StronglySorted (not_less (older env old_logs)) sorted /\
    sorted !! k = Some p /\
    Z.of_nat k < Z.of_nat (length sorted) - 1 /\
    ErrText "failed to remove old log file logs/app-2024-01-01.log" (Errno 13)
      = ErrText ("failed to remove old log file " ++ p) cause /\
    os.names s' = remove_all (take k sorted) (os.names old_logs) /\
    os.fds s' = os.fds old_logs.
Proof.
  intros drw env s'.
  destruct (cleanOldLogFiles_failure env drw old_logs s'
              (ErrText "failed to remove old log file logs/app-2024-01-01.log"
                       (Errno 13))
              ltac:(vm_compute; reflexivity)) as [[_ [cause H]]|H].
  - discriminate H.
  - exact H.
Defined.

(** ** Names *)

(** X16: for a base path whose last element has no extension, the
    files the pruner counts and may remove are all entries of the
    directory that are not directories and whose name starts with the
    base name and a dash; the name need not end in [.log]. *)
Theorem logFiles_without_extension
  (path : string) (files : list os.DirEntry) (p : string)
  (Hext : logExt path = "") :
  p ∈ logFiles path files <->
  exists entry, entry ∈ files /\ os.EntryIsDir entry = false /\
    strings.HasPrefix (os.Name entry) (filepath.Base path ++ "-") = true /\
    p = filepath.Join (filepath.Dir path) (os.Name entry).
Proof.
  rewrite elem_of_logFiles.
  assert (Hlog : forall entry,
            isLogFile (logPrefix path) (logExt path) entry = true <->
            os.EntryIsDir entry = false /\
            strings.HasPrefix (os.Name entry) (filepath.Base path ++ "-") = true).
  { intros entry. unfold isLogFile, logPrefix. unfold logExt in Hext.
    rewrite Hext. fold (logExt path). unfold logExt. rewrite Hext.
    cbn [nonempty]. rewrite HasSuffix_empty. cbn [orb].
    rewrite andb_true_r, andb_true_iff, negb_true_iff. done. }
  split.
  - intros (entry & He & Hl & ->). apply Hlog in Hl as [Hd Hp]. eauto 10.
  - intros (entry & He & Hd & Hp & ->). exists entry.
    split; [done|]. split; [|done]. by apply Hlog.
Qed.

Lemma logFiles_without_extension_witness :
  "logs/test-notes.txt" ∈
    logFiles "logs/test" [os.Entry "test-notes.txt" false; os.Entry "test" false].
Proof.
  apply (logFiles_without_extension "logs/test"
           [os.Entry "test-notes.txt" false; os.Entry "test" false]
           "logs/test-notes.txt" eq_refl).
  exists (os.Entry "test-notes.txt" false).
  split; [apply list_elem_of_here|]. repeat split.
Defined.

Lemma str_app_inv_l a x y : a ++ x = a ++ y -> x = y.
Proof.
  induction a as [|c a IH]; [by rewrite !str_app_nil_l|].
  rewrite !str_app_cons. intros [= H]. auto.
Qed.

Lemma str_app_inv_r x y b : x ++ b = y ++ b -> x = y.
Proof.
  intros H.
  assert (Hlen : String.length x = String.length y).
  { apply (f_equal String.length) in H. rewrite !str_length_app in H. lia. }
  revert y H Hlen. induction x as [|c x IH]; intros [|d y] H Hlen;
    try done; cbn in Hlen.
  rewrite !str_app_cons in H. injection H as -> H. f_equal. apply IH; [done|lia].
Qed.

(** X17: for one base path, the names derived for two dates are equal
    only when the dates are: no two days share a file. *)
Theorem newFilename_injective
  (path D1 D2 : string)
  (Hname : newFilename path D1 = newFilename path D2) :
  D1 = D2.
Proof.
  unfold newFilename in Hname.
  destruct (nonempty (filepath.Ext path)).
  - apply str_app_inv_l, str_app_inv_l in Hname. by apply str_app_inv_r in Hname.
  - apply str_app_inv_r in Hname.
    apply str_app_inv_l, str_app_inv_l in Hname. by apply str_app_inv_r in Hname.
Qed.

Lemma newFilename_injective_witness : "2024-01-15" = "2024-01-15".
Proof.
  apply (newFilename_injective "logs/app.log" "2024-01-15" "2024-01-15").
  reflexivity.
Defined.

(** ** From a configuration to a writer *)

Lemma NewSlogLogger_rotating env lvl format output daily limit s s' l drw :
  NewSlogLogger env lvl format output daily limit s = (s', inl (l, Some drw)) ->
  daily = true /\ writer (base l) = Rotating /\ level l = lvl /\
  NewDailyRotateWriter env output
    [match limit with m :: _ => m | [] => 0 end] s = (s', inl drw).
Proof.
  unfold NewSlogLogger. intros H.
  destruct (String.eqb (strings.ToLower output) "" ||
            String.eqb (strings.ToLower output) "stdout"); [by simplify_eq|].
  destruct (String.eqb (strings.ToLower output) "stderr"); [by simplify_eq|].
  destruct daily.
  - destruct (NewDailyRotateWriter env output _ s) as [s1 [drw1|r1]];
      by simplify_eq.
  - destruct (os.OpenFile s output O_log _ _) as [s1 [f|e]]; by simplify_eq.
Qed.

(** X18: when [NewFromConfig] on a [*Config] makes a rotating writer,
    the configuration asked for daily rotation, and the writer has the
    configuration's output as its base path and its [MaxFiles] as its
    limit, today's date and an open handle; the logger has the level
    that [parseLevel] reads from the configuration. *)
Theorem NewFromConfig_rotating
  (env : Env) (conf : Config.t) (s s' : os.OS) (l : SlogLogger)
  (drw : DailyRotateWriter)
  (Hnew : NewFromConfig env (ConfigPtr (Some conf)) s = (s', inl (l, Some drw))) :
  Config.Daily conf = true /\ writer (base l) = Rotating /\
  level l = fst (parseLevel (Config.Level conf)) /\
  basePath drw = Config.Output conf /\ maxFiles drw = Config.MaxFiles conf /\
  lastDate drw = now_date env /\ stopCh drw = false /\
  exists f i, file drw = Some f /\ os.fds s' !! f = Some (os.Fd i true).
Proof.
  unfold NewFromConfig in Hnew.
  destruct (parseLevel (Config.Level conf)) as [lvl [err|]]; [done|].
  apply NewSlogLogger_rotating in Hnew as (Hd & Hw & Hl & Hdrw).
  pose proof (NewDailyRotateWriter_cases env (Config.Output conf)
                [Config.MaxFiles conf] s) as H.
  rewrite Hdrw in H. destruct H as (Hb & Hdate & Hstop & Hm & f & i & Hf & Hfd & _).
  repeat split; try done. eauto.
Qed.

Lemma NewFromConfig_rotating_witness :
  let conf := Config.mk "Warn" "json" "logs/app.log" true 2 in
  let m := made (NewFromConfig (calm "2024-01-15" 100) (ConfigPtr (Some conf))
                   empty_os) in
  let drw := default no_writer (snd m) in
  basePath drw = "logs/app.log" /\ maxFiles drw = 2 /\
  level (snd (fst m)) = LevelWarn.
Proof.
  intros conf m drw.
  destruct (NewFromConfig_rotating (calm "2024-01-15" 100) conf empty_os
              (fst (fst m)) (snd (fst m)) drw ltac:(vm_compute; reflexivity))
    as (_ & _ & Hl & Hb & Hm & _).
  split; [exact Hb|]. split; [exact Hm | exact Hl].
Defined.

(** X19: without daily rotation, and with an output that is none of
    the standard streams, the logger that [NewSlogLogger] returns writes
    to an open handle on the file named [output] itself; no rotating
    writer is made, and every name and every file that was there is
    still there, with its content. *)
Theorem NewSlogLogger_plain_file
  (env : Env) (lvl : Level) (format output : string) (limit : list Z)
  (s s' : os.OS) (l : SlogLogger) (drw : option DailyRotateWriter)
  (Hout : strings.ToLower output <> "" /\ strings.ToLower output <> "stdout" /\
          strings.ToLower output <> "stderr")
  (Hnew : NewSlogLogger env lvl format output false limit s = (s', inl (l, drw))) :
  drw = None /\
  os.names s ⊆ os.names s' /\ os.inodes s ⊆ os.inodes s' /\
  exists f i, writer (base l) = Plain f /\
              os.fds s' !! f = Some (os.Fd i true) /\
              os.names s' !! os.resolve output = Some (os.NFile i).
Proof.
  destruct Hout as (H1 & H2 & H3).
  apply String.eqb_neq in H1, H2, H3.
  unfold NewSlogLogger in Hnew. rewrite H1, H2, H3 in Hnew. cbn [orb] in Hnew.
  destruct (os.OpenFile s output O_log _ _) as [s1 [f|e]] eqn:Ho; [|done].
  injection Hnew as <- <- <-.
  pose proof (os_OpenFile_names _ _ _ _ _ _ _ Ho) as (Hn & Hi & _).
  apply os_OpenFile_ok in Ho as (_ & _ & i & Hfd & Hname).
  repeat split; try done. exists f, i. cbn.
  split; [done|]. split; [|done]. rewrite Hfd. apply lookup_insert_eq.
Qed.

Lemma NewSlogLogger_plain_file_witness :
  let s := fst (os.MkdirAll empty_os "logs" 1 None) in
  let m := made (NewSlogLogger (calm "2024-01-15" 100) LevelInfo "text"
                   "logs/app.log" false [] s) in
  snd m = None /\ os.names s ⊆ os.names (fst (fst m)).
Proof.
  intros s m.
  destruct (NewSlogLogger_plain_file (calm "2024-01-15" 100) LevelInfo "text"
              "logs/app.log" [] s (fst (fst m)) (snd (fst m)) (snd m)
              ltac:(repeat split; discriminate) ltac:(vm_compute; reflexivity))
    as (Hd & Hn & _).
  split; [exact Hd | exact Hn].
Defined.

(** X20: neither the level nor the format decides what [NewSlogLogger]
    does to the file system, whether it fails, or what the logger writes
    to; a format that is not [json], in whatever case, is no error and
    gives the text handler. *)
Theorem NewSlogLogger_format
  (env : Env) (lvl lvl' : Level) (format format' output : string)
  (daily : bool) (limit : list Z) (s : os.OS) :
  match NewSlogLogger env lvl format output daily limit s,
        NewSlogLogger env lvl' format' output daily limit s with
  | (s1, inl (l1, d1)), (s2, inl (l2, d2)) =>
      s1 = s2 /\ d1 = d2 /\ writer (base l1) = writer (base l2) /\
      (handler (base l1) = JSONHandler <-> strings.ToLower format = "json") /\
      (handler (base l1) = TextHandler <-> strings.ToLower format <> "json")
  | (s1, inr r1), (s2, inr r2) => s1 = s2 /\ r1 = r2
  | _, _ => False
  end.
Proof.
  unfold NewSlogLogger.
  destruct (String.eqb (strings.ToLower format) "json") eqn:Hf;
    [apply String.eqb_eq in Hf | apply String.eqb_neq in Hf];
    repeat case_match; simplify_eq; cbn; try done; repeat split; try done.
Qed.

(** ** Close calls that overlap *)

(** X21: the first calls of [Close] are not safe against each other:
    when two goroutines both pass the [select] while the stop channel is
    open, both go on to close it, and the second [close] panics,
    whatever the state of the writer's file. *)
Theorem Close_overlapping_panics
  (s : os.OS) (drw : DailyRotateWriter) (f1 f2 f3 f4 : option error)
  (Hopen : stopCh drw = false) :
  Close_run [(0%nat, f1); (1%nat, f2); (0%nat, f3); (1%nat, f4)]
            (mkClosing s drw [AtSelect; AtSelect]) =
    inr "close of closed channel".
Proof. destruct drw as [bp fl ld st mf]. cbn in Hopen. subst st. reflexivity. Qed.

Lemma Close_overlapping_panics_witness :
  Close_run [(0%nat, None); (1%nat, None); (0%nat, None); (1%nat, None)]
            (mkClosing (fst day1) (snd day1) [AtSelect; AtSelect]) =
    inr "close of closed channel".
Proof.
  apply (Close_overlapping_panics (fst day1) (snd day1) None None None None).
  vm_compute. reflexivity.
Defined.
